(** * appifi: the File node of the forest and the chunked hashing transfer

    A shallow embedding of
      - [src/fruitmix/forest/file.js]  (class [File]), and
      - [src/box/rs-T-ws.js]           (class [Transfer_1]),
    followed by the properties established about them.

    JavaScript values are modelled by the inductive [jsval]; objects are
    records; mutation is explicit state passing; event handlers are functions
    from the state before the event to the state after it. *)

From Stdlib Require Import ZArith List String Lia Bool.
From Stdlib.Strings Require Import Byte.
From stdpp Require Import base gmap sets list strings.

Local Open Scope string_scope.
Local Open Scope list_scope.
Local Open Scope Z_scope.

(** ** JavaScript values *)

Module JS.

Inductive jsval :=
| JUndefined
| JNull
| JBool (b : bool)
| JNumber (n : Z)
| JString (s : string).

#[global] Instance jsval_eq_dec : EqDecision jsval.
Proof. solve_decision. Defined.

Definition jsval_enc (v : jsval) : unit + (unit + (bool + (Z + string))) :=
  match v with
  | JUndefined => inl tt
  | JNull => inr (inl tt)
  | JBool b => inr (inr (inl b))
  | JNumber n => inr (inr (inr (inl n)))
  | JString s => inr (inr (inr (inr s)))
  end.

Definition jsval_dec (e : unit + (unit + (bool + (Z + string)))) : jsval :=
  match e with
  | inl _ => JUndefined
  | inr (inl _) => JNull
  | inr (inr (inl b)) => JBool b
  | inr (inr (inr (inl n))) => JNumber n
  | inr (inr (inr (inr s))) => JString s
  end.

#[global] Instance jsval_countable : Countable jsval.
Proof.
  apply (inj_countable' jsval_enc jsval_dec).
  intros []; reflexivity.
Defined.

(** [typeof v] *)
Definition typeof (v : jsval) : string :=
  match v with
  | JUndefined => "undefined"
  | JNull => "object"
  | JBool _ => "boolean"
  | JNumber _ => "number"
  | JString _ => "string"
  end.

(** The test performed by [if (v)] and [!v]. *)
Definition truthy (v : jsval) : bool :=
  match v with
  | JUndefined => false
  | JNull => false
  | JBool b => b
  | JNumber n => negb (n =? 0)
  | JString s => negb (String.eqb s "")
  end.

(** [a === b] on the values above (numbers are integers here). *)
Definition strict_eq (a b : jsval) : bool := bool_decide (a = b).

(** Result of a call that may throw: the state left behind is threaded
    separately, this only says how the call ended. *)
Inductive outcome :=
| Returned
| Threw (msg : string).

End JS.

(** ** src/box/rs-T-ws.js : class Transfer_1 *)

Module RsTWs.

Definition SIZE_1G : Z := 1024 * 1024 * 1024.

Definition Buffer := list byte.

(** Index normalisation of [buf.slice]: a negative index counts from the end,
    and the result is clamped to the buffer. *)
Definition rel_index (len i : Z) : Z :=
  if i <? 0 then Z.max (len + i) 0 else Z.min i len.

(** [buf.slice(start, end)] *)
Definition Buffer_slice (b : Buffer) (start end_ : Z) : Buffer :=
  let len := Z.of_nat (length b) in
  let s := rel_index len start in
  let e := rel_index len end_ in
  firstn (Z.to_nat (e - s)) (skipn (Z.to_nat s) b).

(** [buf.slice(start)] *)
Definition Buffer_slice_from (b : Buffer) (start : Z) : Buffer :=
  Buffer_slice b start (Z.of_nat (length b)).

(** [Buffer.from(str)]: the bytes of the (hexadecimal, hence ASCII) string. *)
Definition Buffer_from_string (s : string) : Buffer := list_byte_of_string s.

(** Argument list of one call of the [callback] given to [storeFile]. *)
Inductive callback_call :=
| CbErr (e : string)
| CbOk (digest : string).

(** Events of the read stream [rs], as they are delivered to the handlers
    of [storeFile]. The pipe to [ws], [rs.pause()] and the logging do not
    touch the hashing state and are left out. *)
Inductive rs_event :=
| EvData (data : Buffer)
| EvClose
| EvError (e : string).

Section Transfer_1.

(** [crypto.createHash('sha256') ... .digest('hex')] of all the bytes given
    to [update], as one function of their concatenation. *)
Variable sha256_hex : Buffer -> string.

(** The segment size; the program runs with [SIZE_1G]. *)
Variable SIZE : Z.

(** A Hash object is the bytes it has been fed so far. *)
Definition Hash := Buffer.
Definition createHash : Hash := [].
Definition Hash_update (h : Hash) (b : Buffer) : Hash := h ++ b.
Definition Hash_digest (h : Hash) : string := sha256_hex h.

(** [this.hashArr] together with the locals of [storeFile] that its
    closures share, and the calls made to [callback]. *)
Record state := mkState {
  hashArr : list string;
  size : Z;
  hashMaker : Hash;
  finished : bool;
  calls : list callback_call
}.

Definition set_hashMaker (h : Hash) (st : state) : state :=
  mkState (hashArr st) (size st) h (finished st) (calls st).

Definition error (err : string) (st : state) : state :=
  if finished st then st
  else mkState (hashArr st) (size st) (hashMaker st) true (calls st ++ [CbErr err]).

Definition finish (digest : string) (st : state) : state :=
  if finished st then st
  else mkState (hashArr st) (size st) (hashMaker st) true (calls st ++ [CbOk digest]).

(** [rs.on('data', ...)] *)
Definition on_data (data : Buffer) (st : state) : state :=
  let chunk := data in
  if size st + Z.of_nat (length chunk) >=? SIZE then
    let len := SIZE - size st in
    let h := Hash_update (hashMaker st) (Buffer_slice chunk 0 len) in
    let arr := hashArr st ++ [Hash_digest h] in
    let rest := Buffer_slice_from chunk len in
    mkState arr (Z.of_nat (length rest)) (Hash_update createHash rest)
            (finished st) (calls st)
  else
    mkState (hashArr st) (size st + Z.of_nat (length chunk))
            (Hash_update (hashMaker st) chunk) (finished st) (calls st).

(** The [for] loop of the close handler, from index [i] on: [rest] is
    [hashArr[i..]]; the test [i === hashArr.length - 1] is [rest] having
    one element. *)
Fixpoint close_loop (rest : list string) (st : state) : state :=
  match rest with
  | [] => st
  | l :: tl =>
      let h := Hash_update (hashMaker st) (Buffer_from_string l) in
      let digest := Hash_digest h in
      match tl with
      | [] => finish digest (set_hashMaker h st)
      | _ :: _ =>
          close_loop tl
            (set_hashMaker (Hash_update createHash (Buffer_from_string digest)) st)
      end
  end.

(** [rs.on('close', ...)] *)
Definition on_close (st : state) : state :=
  let digest := Hash_digest (hashMaker st) in
  let st1 := mkState (hashArr st ++ [digest]) (size st) (hashMaker st)
                     (finished st) (calls st) in
  if (length (hashArr st1) =? 1)%nat then finish digest st1
  else
    match hashArr st1 with
    | [] => st1
    | l0 :: tl =>
        close_loop tl
          (set_hashMaker (Hash_update createHash (Buffer_from_string l0)) st1)
    end.

Definition handle (st : state) (e : rs_event) : state :=
  match e with
  | EvData d => on_data d st
  | EvClose => on_close st
  | EvError err => error err st
  end.

(** [new Transfer_1()] *)
Definition new_Transfer_1 : list string := [].

(** [storeFile] on an object whose [hashArr] is [this_hashArr], for the
    events the read stream then delivers. *)
Definition storeFile (this_hashArr : list string) (events : list rs_event) : state :=
  fold_left handle events (mkState this_hashArr 0 createHash false []).

(** A file read to its end: its chunks in order, then close. *)
Definition read_events (chunks : list Buffer) : list rs_event :=
  map EvData chunks ++ [EvClose].

(** The left-to-right chained combination of leaf digests, started from
    [acc]. *)
Definition chain (acc : string) (rest : list string) : string :=
  fold_left
    (λ d l, sha256_hex (Buffer_from_string d ++ Buffer_from_string l)) rest acc.

(** The combination of a whole list of leaves; a single leaf is itself. *)
Definition chain_all (leaves : list string) : string :=
  match leaves with
  | [] => ""
  | l0 :: tl => chain l0 tl
  end.

(** What holds between data events: the leaves pushed so far are the
    digests of the full segments of the content read so far, and the
    current Hash object holds the bytes after the last full segment. *)
Record data_inv (content : Buffer) (st : state) : Prop := {
  inv_segs : ∃ segs : list Buffer,
      Forall (λ sg, Z.of_nat (length sg) = SIZE) segs
      ∧ concat segs ++ hashMaker st = content
      ∧ hashArr st = map sha256_hex segs;
  inv_size : size st = Z.of_nat (length (hashMaker st));
  inv_lt : size st < SIZE;
  inv_finished : finished st = false;
  inv_calls : calls st = []
}.

End Transfer_1.

(** Inputs used in the examples: a 4-byte segment size, and a toy digest
    that writes its input out, closed by a mark. *)
Definition toy_hex (b : Buffer) : string :=
  String.append (string_of_list_byte b) "#".

Definition bytes (s : string) : Buffer := list_byte_of_string s.

(** Ten bytes, 2.5 segments of 4, read in chunks of 3, 3 and 4. *)
Definition chunks_two_and_a_half : list Buffer :=
  [bytes "012"; bytes "345"; bytes "6789"].

(** Eight bytes, exactly 2 segments of 4, read in chunks of 3, 3 and 2. *)
Definition chunks_two_exact : list Buffer :=
  [bytes "012"; bytes "345"; bytes "67"].

(** Four bytes, exactly 1 segment of 4, read as one chunk. *)
Definition chunks_one_exact : list Buffer := [bytes "0123"].

End RsTWs.

(** ** src/fruitmix/forest/file.js : class File *)

Module Forest.
Import JS.

(** The record handed over by the directory scan. [uuid] and [name] are
    strings; [magic] and [hash] are whatever the scan produced. *)
Record xstat := mkXstat {
  x_uuid : string;
  x_name : string;
  x_magic : jsval;
  x_hash : jsval
}.

Inductive job_status :=
| Running
| Cancelling
| Finished.

#[global] Instance job_status_eq_dec : EqDecision job_status.
Proof. solve_decision. Defined.

(** Modelled from the spec: the hash worker returned by [hash(path, uuid)]
    (its module is not among the sources). A job is started against a path,
    runs in the background, and ends by emitting one event: ['finish'] with an
    xstat, or ['error'] with a code. [abort()] only requests cancellation and
    returns at once; the job acknowledges later with an ['error'] event of
    code EABORT and emits no digest. *)
Record Job := mkJob {
  job_path : string;
  job_uuid : string;
  status : job_status
}.

Definition set_status (st : job_status) (j : Job) : Job :=
  mkJob (job_path j) (job_uuid j) st.

(** The fields of a File object; [parent] is the one it has from Node (see
    [abspath] below). [paused] is not assigned by the constructor; read
    before [pause()] it is falsy, which is [false] here. *)
Record File := mkFile {
  parent : option string;
  uuid : string;
  name : string;
  magic : jsval;
  hash : jsval;
  worker : option nat;
  hashFail : Z;
  paused : bool
}.

Definition set_parent (p : option string) (f : File) : File :=
  mkFile p (uuid f) (name f) (magic f) (hash f) (worker f) (hashFail f) (paused f).
Definition set_name (n : string) (f : File) : File :=
  mkFile (parent f) (uuid f) n (magic f) (hash f) (worker f) (hashFail f) (paused f).
Definition set_hash (h : jsval) (f : File) : File :=
  mkFile (parent f) (uuid f) (name f) (magic f) h (worker f) (hashFail f) (paused f).
Definition set_worker (w : option nat) (f : File) : File :=
  mkFile (parent f) (uuid f) (name f) (magic f) (hash f) w (hashFail f) (paused f).
Definition set_hashFail (n : Z) (f : File) : File :=
  mkFile (parent f) (uuid f) (name f) (magic f) (hash f) (worker f) n (paused f).
Definition set_paused (b : bool) (f : File) : File :=
  mkFile (parent f) (uuid f) (name f) (magic f) (hash f) (worker f) (hashFail f) b.

(** Modelled from the spec: [abspath()] of the base class Node (node.js is
    not among the sources). A node keeps a back-reference to its parent,
    here the parent's path, and its absolute path joins the names from the
    root down to the node, with the name it has now. *)
Definition abspath (f : File) : string :=
  match parent f with
  | Some p => String.append p (String.append "/" (name f))
  | None => name f
  end.

(** [constructor(ctx, xstat)]: the new object, or the message thrown. *)
Definition File_constructor (x : xstat) : File + string :=
  if negb (String.eqb (typeof (x_magic x)) "string") then
    inr "file must have magic string"
  else if negb (strict_eq (x_hash x) JUndefined)
          && negb (String.eqb (typeof (x_hash x)) "string") then
    inr "xstat hash must be either a string or undefined"
  else
    inl (mkFile None (x_uuid x) (x_name x) (x_magic x) (x_hash x) None 0 false).

(** Modelled from the spec: the index kept by the root (its module is not
    among the sources), a mapping from digest to the set of File objects with
    that digest. [index(file)] inserts the file into the set of its current
    digest (inserting twice changes nothing); [unindex(file)] removes it from
    the set of its current digest. File objects are named by an identity. *)
Definition index_add (o : positive) (d : jsval)
    (i : gmap jsval (gset positive)) : gmap jsval (gset positive) :=
  <[d := {[o]} ∪ i !!! d]> i.

Definition index_remove (o : positive) (d : jsval)
    (i : gmap jsval (gset positive)) : gmap jsval (gset positive) :=
  alter (λ s, s ∖ {[o]}) d i.

Definition indexed (i : gmap jsval (gset positive)) (d : jsval) (o : positive) : Prop :=
  o ∈ i !!! d.

(** One File object in its surroundings: its identity, the jobs started on
    its behalf (a job's handle is its position), the shared index, and the
    codes passed to [this.dir.fileMissing]. *)
Record Sys := mkSys {
  file : File;
  self : positive;
  jobs : list Job;
  idx : gmap jsval (gset positive);
  missing : list string
}.

Definition upd_file (g : File -> File) (s : Sys) : Sys :=
  mkSys (g (file s)) (self s) (jobs s) (idx s) (missing s).
Definition set_jobs (js : list Job) (s : Sys) : Sys :=
  mkSys (file s) (self s) js (idx s) (missing s).
Definition set_idx (i : gmap jsval (gset positive)) (s : Sys) : Sys :=
  mkSys (file s) (self s) (jobs s) i (missing s).
Definition fileMissing (code : string) (s : Sys) : Sys :=
  mkSys (file s) (self s) (jobs s) (idx s) (missing s ++ [code]).

(** [index()] *)
Definition File_index (s : Sys) : Sys :=
  if truthy (hash (file s)) then
    set_idx (index_add (self s) (hash (file s)) (idx s)) s
  else s.

(** [unindex()] *)
Definition File_unindex (s : Sys) : Sys :=
  if truthy (hash (file s)) then
    set_idx (index_remove (self s) (hash (file s)) (idx s)) s
  else s.

(** [startWorker()]: the guard, then [hash(this.abspath(), this.uuid)],
    the two handlers (below) and [start()]. *)
Definition File_startWorker (s : Sys) : Sys :=
  let f := file s in
  if negb (truthy (hash f)) && negb (paused f) && (hashFail f <? 5) then
    mkSys (set_worker (Some (length (jobs s))) f) (self s)
          (jobs s ++ [mkJob (abspath f) (uuid f) Running]) (idx s) (missing s)
  else s.

(** Modelled from the spec: [worker.abort()] on job [j]. A running job is
    asked to stop and the call returns; the job is still there until it
    acknowledges. *)
Definition Worker_abort (j : nat) (s : Sys) : Sys :=
  match jobs s !! j with
  | Some job =>
      match status job with
      | Running => set_jobs (<[j := set_status Cancelling job]> (jobs s)) s
      | _ => s
      end
  | None => s
  end.

(** [stopWorker()] *)
Definition File_stopWorker (s : Sys) : Sys :=
  match worker (file s) with
  | Some j => Worker_abort j s
  | None => s
  end.

(** [pause()] *)
Definition File_pause (s : Sys) : Sys * outcome :=
  if paused (file s) then (s, Threw "paused")
  else (upd_file (set_paused true) (File_stopWorker s), Returned).

(** [resume()] *)
Definition File_resume (s : Sys) : Sys :=
  File_startWorker (upd_file (set_paused false) s).

(** The guard of [startWorker]. *)
Definition may_start (f : File) : bool :=
  negb (truthy (hash f)) && negb (paused f) && (hashFail f <? 5).

(** [update(xstat)] after its checks and its early return: the rename, the
    change of digest, the reset of [hashFail]. *)
Definition update_body (x : xstat) (s : Sys) : Sys :=
  let s1 :=
    if negb (String.eqb (name (file s)) (x_name x)) then
      File_startWorker (upd_file (set_name (x_name x)) (File_stopWorker s))
    else s in
  let s2 :=
    if negb (strict_eq (hash (file s1)) (x_hash x)) then
      File_index (upd_file (set_hash (x_hash x)) (File_unindex s1))
    else s1 in
  if strict_eq (hash (file s2)) JUndefined then upd_file (set_hashFail 0) s2
  else s2.

(** [update(xstat)] *)
Definition File_update (x : xstat) (s : Sys) : Sys * outcome :=
  if negb (String.eqb (typeof (x_magic x)) "string") then
    (s, Threw "xstat.magic must be a string")
  else if negb (String.eqb (x_uuid x) (uuid (file s))) then
    (s, Threw "xstat.uuid mismatch")
  else if String.eqb (name (file s)) (x_name x)
          && strict_eq (hash (file s)) (x_hash x) then
    (s, Returned)
  else (update_body x s, Returned).

(** The ['error'] handler installed by [startWorker]. *)
Definition on_worker_error (code : string) (s : Sys) : Sys :=
  let s1 := upd_file (set_worker None) s in
  if String.eqb code "ENOTDIR" || String.eqb code "ENOENT" then fileMissing code s1
  else if String.eqb code "EABORT" then s1
  else File_startWorker s1.

(** The ['finish'] handler installed by [startWorker]. *)
Definition on_worker_finish (x : xstat) (s : Sys) : Sys * outcome :=
  File_update x (upd_file (set_worker None) s).

(** Modelled from the spec: [attach(parent)] of Node records the parent. *)
Definition Node_attach (p : string) (s : Sys) : Sys :=
  upd_file (set_parent (Some p)) s.

(** Modelled from the spec: [detach()] of Node clears the parent. *)
Definition Node_detach (s : Sys) : Sys :=
  upd_file (set_parent None) s.

(** [attach(parent)] *)
Definition File_attach (p : string) (s : Sys) : Sys :=
  File_startWorker (File_index (Node_attach p s)).

(** [detach()] *)
Definition File_detach (s : Sys) : Sys :=
  Node_detach (File_unindex (File_stopWorker s)).

(** What can happen to the File: a call of one of its methods, an event of
    one of its jobs, or another File entering or leaving the index. *)
Inductive op :=
| Attach (p : string)
| Detach
| Pause
| Resume
| Update (x : xstat)
| WorkerError (j : nat) (code : string)
| WorkerFinish (j : nat) (x : xstat)
| OtherIndex (o : positive) (d : jsval)
| OtherUnindex (o : positive) (d : jsval).

Definition job_has_status (s : Sys) (j : nat) (st : job_status) : bool :=
  match jobs s !! j with
  | Some job => bool_decide (status job = st)
  | None => false
  end.

(** Modelled from the spec: a job that has emitted its event is over. *)
Definition end_job (j : nat) (s : Sys) : Sys :=
  match jobs s !! j with
  | Some job => set_jobs (<[j := set_status Finished job]> (jobs s)) s
  | None => s
  end.

(** One step. A method call runs the method; a job event marks the job as
    over and runs the handler that [startWorker] installed. [None]: the
    event cannot happen in this state (a job emits once; a running job ends
    with ['finish'] or an error other than EABORT, a job asked to abort ends
    with EABORT). A method that throws leaves the state it had reached. *)
Definition exec (o : op) (s : Sys) : option (Sys * outcome) :=
  match o with
  | Attach p => Some (File_attach p s, Returned)
  | Detach => Some (File_detach s, Returned)
  | Pause => Some (File_pause s)
  | Resume => Some (File_resume s, Returned)
  | Update x => Some (File_update x s)
  | WorkerError j code =>
      if (job_has_status s j Running && negb (String.eqb code "EABORT"))
         || (job_has_status s j Cancelling && String.eqb code "EABORT")
      then Some (on_worker_error code (end_job j s), Returned)
      else None
  | WorkerFinish j x =>
      if job_has_status s j Running then Some (on_worker_finish x (end_job j s))
      else None
  | OtherIndex o' d =>
      if bool_decide (o' = self s) then None
      else Some (set_idx (index_add o' d (idx s)) s, Returned)
  | OtherUnindex o' d =>
      if bool_decide (o' = self s) then None
      else Some (set_idx (index_remove o' d (idx s)) s, Returned)
  end.

Fixpoint run (ops : list op) (s : Sys) : option Sys :=
  match ops with
  | [] => Some s
  | o :: tl =>
      match exec o s with
      | Some (s', _) => run tl s'
      | None => None
      end
  end.

(** [stopWorker()] and [pause()] once more, with [worker.abort()] as a
    parameter; with [Worker_abort] for it they are [File_stopWorker] and
    [File_pause]. *)
Definition File_stopWorker_of (abort : nat -> Sys -> Sys) (s : Sys) : Sys :=
  match worker (file s) with
  | Some j => abort j s
  | None => s
  end.

Definition File_pause_of (abort : nat -> Sys -> Sys) (s : Sys) : Sys * outcome :=
  if paused (file s) then (s, Threw "paused")
  else (upd_file (set_paused true) (File_stopWorker_of abort s), Returned).


(** A File object just constructed, with identity [o], beside index [i]. *)
Definition init_sys (f : File) (o : positive) (i : gmap jsval (gset positive)) : Sys :=
  mkSys f o [] i [].

Fixpoint running_from (k : nat) (js : list Job) : list nat :=
  match js with
  | [] => []
  | j :: tl =>
      if bool_decide (status j = Running) then k :: running_from (S k) tl
      else running_from (S k) tl
  end.

(** Handles of the jobs that are running. *)
Definition running_jobs (s : Sys) : list nat := running_from 0 (jobs s).

(** An error code that is neither path-missing nor cancellation. *)
Definition is_transient (code : string) : bool :=
  negb (String.eqb code "ENOTDIR" || String.eqb code "ENOENT")
  && negb (String.eqb code "EABORT").

(** [n] failures in a row of the job the File holds, each with [code]. *)
Fixpoint fail_times (n : nat) (code : string) (s : Sys) : option Sys :=
  match n with
  | O => Some s
  | S n' =>
      match worker (file s) with
      | Some j =>
          match exec (WorkerError j code) s with
          | Some (s', _) => fail_times n' code s'
          | None => None
          end
      | None => None
      end
  end.

(** The xstat hashes of an operation are digests: undefined, or a string
    that is not empty. *)
Definition digest_or_undefined (h : jsval) : bool :=
  match h with
  | JUndefined => true
  | JString s => negb (String.eqb s "")
  | _ => false
  end.

Definition op_digests_ok (o : op) : bool :=
  match o with
  | Update x => digest_or_undefined (x_hash x)
  | WorkerFinish _ x => digest_or_undefined (x_hash x)
  | _ => true
  end.


(** The File is in no set of the index. *)
Definition unindexed (s : Sys) : Prop :=
  ∀ d, ¬ indexed (idx s) d (self s).

(** The File is in the set of no digest but its own, which then passes the
    test of [index()]; and once attached, a File whose digest passes that
    test is in the set of its digest. *)
Definition index_inv (s : Sys) : Prop :=
  (∀ d, indexed (idx s) d (self s) -> hash (file s) = d ∧ truthy d = true)
  ∧ (parent (file s) ≠ None -> truthy (hash (file s)) = true ->
     indexed (idx s) (hash (file s)) (self s)).

(** Inputs used in the examples. *)
Definition xs (nm : string) (h : jsval) : xstat :=
  mkXstat "u-1" nm (JString "JPEG") h.

Definition hashless_file : File :=
  mkFile None "u-1" "a.jpg" (JString "JPEG") JUndefined None 0 false.

Definition hashed_file : File :=
  mkFile None "u-1" "a.jpg" (JString "JPEG") (JString "abc") None 0 false.

Definition fresh_sys : Sys := init_sys hashless_file 1%positive ∅.

(** Attached under "/d": hashless with job 0 running; hashed and indexed. *)
Definition hashless_sys : Sys := File_attach "/d" fresh_sys.
Definition hashed_sys : Sys := File_attach "/d" (init_sys hashed_file 1%positive ∅).


(** What is seen of the jobs: the handle the File holds, and the jobs that
    are running. *)
Definition observe (s : Sys) : option nat * list nat :=
  (worker (file s), running_jobs s).

(** A hashed File is attached, then updated with another digest. *)
Definition redigest : list op :=
  [Attach "/d"; Update (xs "a.jpg" (JString "def"))].

Definition redigest_final : Sys :=
  default fresh_sys (run redigest (init_sys hashed_file 1%positive ∅)).

(** A rename while job 0 runs, then the acknowledgement of job 0. *)
Definition rename_race : list op :=
  [Attach "/d"; Update (xs "b.jpg" JUndefined); WorkerError 0 "EABORT"].

(** A pause and its resume while job 0 runs, then the acknowledgement. *)
Definition resume_race : list op :=
  [Attach "/d"; Pause; Resume; WorkerError 0 "EABORT"].

End Forest.

(** ** src/box/rs-T-ws.js : the segments of a content, HashTransform, Transfer *)

Module RsTWsRest.
Import RsTWs.

(** The content cut at every [n] bytes: the full segments in offset order,
    then what remains, which is shorter than [n] and may be empty. *)
Fixpoint segments_fuel (fuel n : nat) (b : Buffer) : list Buffer :=
  match fuel with
  | O => [b]
  | S fuel' =>
      if (length b <? n)%nat then [b]
      else firstn n b :: segments_fuel fuel' n (skipn n b)
  end.

Definition segments (n : nat) (b : Buffer) : list Buffer :=
  segments_fuel (length b) n b.

(** At most one call of the callback, and [finished] says whether it was
    made. *)
Definition called_once (st : state) : Prop :=
  (finished st = false ∧ calls st = [])
  ∨ (finished st = true ∧ length (calls st) = 1%nat).

Section HashTransform.

Variable sha256_hex : Buffer -> string.

(** A HashTransform object: the bytes given to [hashStream], [this.length],
    the buffers given to [this.push], and [this.digest]. *)
Record HashTransform := mkHashTransform {
  hashStream : Buffer;
  length_ : Z;
  pushed : list Buffer;
  digest : option string
}.

(** [constructor()] *)
Definition new_HashTransform : HashTransform :=
  mkHashTransform [] 0 [] None.

(** [_transform(buf, enc, next)] *)
Definition _transform (buf : Buffer) (t : HashTransform) : HashTransform :=
  mkHashTransform (hashStream t ++ buf) (length_ t + Z.of_nat (length buf))
                  (pushed t ++ [buf]) (digest t).

(** [_flush(next)] *)
Definition _flush (t : HashTransform) : HashTransform :=
  mkHashTransform (hashStream t) (length_ t) (pushed t)
                  (Some (sha256_hex (hashStream t))).

(** The stream machinery on a series of writes and the end of input. *)
Definition transform_all (bufs : list Buffer) : HashTransform :=
  _flush (fold_left (λ t b, _transform b t) bufs new_HashTransform).

End HashTransform.

(** Class Transfer (method_1). Its [hashMaker] is a HashTransform, whose
    [getHash] is inside a comment: calling it throws a TypeError. What the
    handlers leave behind: [this.hashArr], the buffers handed to
    [hashMaker.write], [finished], and the calls of the callback. *)
Record Transfer := mkTransfer {
  t_hashArr : list string;
  t_written : list Buffer;
  t_finished : bool;
  t_calls : list callback_call
}.

(** Events of the read stream of [Transfer.storeFile]. A data event comes
    with the value that [hashMaker.length] has when the handler reads it:
    the transform counts a buffer when the stream machinery hands it over,
    which need not be when it was written. *)
Inductive t_event :=
| TData (seen_length : Z) (data : Buffer)
| TClose
| TError (e : string).

Definition getHash_missing : JS.outcome :=
  JS.Threw "TypeError: hashMaker.getHash is not a function".

Definition t_error (err : string) (st : Transfer) : Transfer :=
  if t_finished st then st
  else mkTransfer (t_hashArr st) (t_written st) true (t_calls st ++ [CbErr err]).

(** The handlers of [Transfer.storeFile]: data, close, error. *)
Definition t_handle (st : Transfer) (e : t_event) : Transfer * JS.outcome :=
  match e with
  | TData seen data =>
      let chunk := data in
      if seen + Z.of_nat (length chunk) >=? SIZE_1G then
        let len := SIZE_1G - seen in
        (mkTransfer (t_hashArr st) (t_written st ++ [Buffer_slice chunk 0 len])
                    (t_finished st) (t_calls st),
         getHash_missing)
      else
        (mkTransfer (t_hashArr st) (t_written st ++ [data])
                    (t_finished st) (t_calls st),
         JS.Returned)
  | TClose => (st, getHash_missing)
  | TError err => (t_error err st, JS.Returned)
  end.

(** [storeFile] of a Transfer whose [hashArr] is [arr], over the events. *)
Definition t_storeFile (arr : list string) (events : list t_event) : Transfer :=
  fold_left (λ st e, fst (t_handle st e)) events (mkTransfer arr [] false []).

Definition is_CbErr (c : callback_call) : bool :=
  match c with
  | CbErr _ => true
  | CbOk _ => false
  end.

End RsTWsRest.

(** ** src/fruitmix/forest/file.js : what holds of the jobs of a File *)

Module ForestRest.
Import JS Forest.

(** Job [i] has been started and has not yet emitted its event. *)
Definition unfinished (s : Sys) (i : nat) : Prop :=
  ∃ job, jobs s !! i = Some job ∧ status job ≠ Finished.

(** Every job that has not ended is the one whose handle the File holds:
    there is at most one, and the File can reach it. *)
Definition settled (s : Sys) : Prop :=
  ∀ i, unfinished s i -> worker (file s) = Some i.

(** The methods that may start a job are called while the File holds no
    handle: [attach] and [resume] always, [update] when it renames. *)
Definition well_timed (o : op) (s : Sys) : Prop :=
  match o with
  | Attach _ | Resume => worker (file s) = None
  | Update x => name (file s) = x_name x ∨ worker (file s) = None
  | _ => True
  end.

(** A failure that is not retried: the path is missing, or the job was
    asked to abort. *)
Definition is_path_missing (code : string) : bool :=
  String.eqb code "ENOTDIR" || String.eqb code "ENOENT".

Definition is_other_op (o : op) : bool :=
  match o with
  | OtherIndex _ _ | OtherUnindex _ _ => true
  | _ => false
  end.

End ForestRest.

(** ** src/fruitmix/cluster/middleware/response.js : res.error *)

Module Response.
Import JS.

Definition DEFALUT_SUCCESS_STATUS : Z := 200.
Definition DEFALUT_ERROR_STATUS : Z := 500.

(** [httpCode[status]] for a number. *)
Definition httpCode (status : Z) : jsval :=
  if status =? 400 then JString "EINVAL"
  else if status =? 404 then JString "ENOENT"
  else JUndefined.

(** [a || b] *)
Definition js_or (a b : jsval) : jsval := if truthy a then a else b.

(** [status || dflt] for a status that is a number or is left out. *)
Definition status_or (status : option Z) (dflt : Z) : Z :=
  match status with
  | Some n => if n =? 0 then dflt else n
  | None => dflt
  end.

(** What [res.error] is given: an Error object with its [code], [message]
    and [stack]; some other object; or a value that is not an object. *)
Inductive err_arg :=
| AnError (code message stack : jsval)
| AnObject
| AValue (v : jsval).

(** The body sent by [res.error]. *)
Record error_body := mkErrorBody {
  body_code : jsval;
  body_message : jsval;
  body_stack : jsval
}.

(** [res.error(err, status)]: the status and the body it sends. *)
Definition res_error (err : err_arg) (status : option Z) : Z * error_body :=
  let status := status_or status DEFALUT_ERROR_STATUS in
  let '(code, message, stack) :=
    match err with
    | AnError c m st => (c, m, st)
    | AnObject => (JUndefined, JUndefined, JUndefined)
    | AValue v =>
        if truthy v then
          if String.eqb (typeof v) "string" then (httpCode status, v, JUndefined)
          else (JUndefined, JUndefined, JUndefined)
        else (JUndefined, JUndefined, JUndefined)
    end in
  (status,
   mkErrorBody (js_or code (JString "no httpCode"))
               (js_or message (JString "system error")) stack).

End Response.

(** * Properties of the chunked hashing (rs-T-ws.js) *)

Module TransferSpec.
Import RsTWs.

Lemma Buffer_slice_prefix (b : Buffer) (k : Z) :
  0 <= k <= Z.of_nat (length b) ->
  Buffer_slice b 0 k = firstn (Z.to_nat k) b.
Proof.
  intros Hk. unfold Buffer_slice, rel_index.
  replace (0 <? 0) with false by reflexivity.
  destruct (k <? 0) eqn:E; [apply Z.ltb_lt in E; lia|].
  rewrite Z.min_l by lia. rewrite Z.min_l by lia.
  simpl. f_equal. lia.
Qed.

Lemma Buffer_slice_suffix (b : Buffer) (k : Z) :
  0 <= k <= Z.of_nat (length b) ->
  Buffer_slice_from b k = skipn (Z.to_nat k) b.
Proof.
  intros Hk. unfold Buffer_slice_from, Buffer_slice, rel_index.
  destruct (k <? 0) eqn:E; [apply Z.ltb_lt in E; lia|].
  destruct (Z.of_nat (length b) <? 0) eqn:E'; [apply Z.ltb_lt in E'; lia|].
  rewrite !Z.min_l by lia.
  apply firstn_all2. rewrite length_skipn. lia.
Qed.

Lemma Buffer_from_string_app (s1 s2 : string) :
  Buffer_from_string (String.append s1 s2)
  = Buffer_from_string s1 ++ Buffer_from_string s2.
Proof.
  unfold Buffer_from_string, list_byte_of_string.
  induction s1 as [|a s1 IH]; simpl; [reflexivity|]. by rewrite IH.
Qed.

Lemma length_concat_segments (n : Z) (segs : list Buffer) :
  Forall (λ sg, Z.of_nat (length sg) = n) segs ->
  Z.of_nat (length (concat segs)) = Z.of_nat (length segs) * n.
Proof.
  induction 1 as [|sg segs Hsg _ IH]; simpl; [lia|].
  rewrite length_app. lia.
Qed.

Section Transfer_1.

Variable sha256_hex : Buffer -> string.
Variable SIZE : Z.
Hypothesis SIZE_pos : 0 < SIZE.

Local Abbreviation chain := (chain sha256_hex).
Local Abbreviation chain_all := (chain_all sha256_hex).
Local Abbreviation data_inv := (data_inv sha256_hex SIZE).
Local Abbreviation on_data := (on_data sha256_hex SIZE).
Local Abbreviation on_close := (on_close sha256_hex).
Local Abbreviation close_loop := (close_loop sha256_hex).
Local Abbreviation handle := (handle sha256_hex SIZE).
Local Abbreviation storeFile := (storeFile sha256_hex SIZE).

Lemma data_inv_init : data_inv [] (mkState [] 0 createHash false []).
Proof.
  split; simpl; try done.
  exists []. by repeat split.
Qed.

Lemma on_data_inv (content chunk : Buffer) (st : state) :
  data_inv content st ->
  Z.of_nat (length chunk) <= SIZE ->
  data_inv (content ++ chunk) (on_data chunk st).
Proof.
  intros [(segs & Hall & Hcat & Harr) Hsz Hlt Hfin Hcalls] Hle.
  unfold RsTWs.on_data. cbv zeta.
  destruct (size st + Z.of_nat (length chunk) >=? SIZE) eqn:E.
  - apply Z.geb_le in E.
    assert (Hk : 0 <= SIZE - size st <= Z.of_nat (length chunk)) by lia.
    rewrite (Buffer_slice_prefix _ _ Hk), (Buffer_slice_suffix _ _ Hk).
    unfold Hash_update, createHash, Hash_digest.
    split; simpl; try done.
    + exists (segs ++ [hashMaker st ++ firstn (Z.to_nat (SIZE - size st)) chunk]).
      split; [|split].
      * apply Forall_app. split; [done|]. constructor; [|done].
        rewrite length_app, length_firstn. lia.
      * rewrite concat_app. simpl. rewrite app_nil_r.
        rewrite <- Hcat. rewrite <- !app_assoc. f_equal. f_equal.
        apply firstn_skipn.
      * rewrite Harr, map_app. reflexivity.
    + rewrite length_skipn. lia.
  - assert (size st + Z.of_nat (length chunk) < SIZE).
    { destruct (Z.geb_spec (size st + Z.of_nat (length chunk)) SIZE); [done|lia]. }
    unfold Hash_update.
    split; simpl; try done.
    + exists segs. split; [done|]. split; [|done].
      rewrite <- Hcat. by rewrite app_assoc.
    + rewrite length_app. lia.
Qed.

Lemma data_run_inv (chunks : list Buffer) :
  Forall (λ ch, Z.of_nat (length ch) <= SIZE) chunks ->
  ∀ content st, data_inv content st ->
    data_inv (content ++ concat chunks) (fold_left handle (map EvData chunks) st).
Proof.
  induction 1 as [|ch chunks Hch _ IH]; intros content st Hinv; simpl.
  - by rewrite app_nil_r.
  - rewrite app_assoc. apply IH. by apply on_data_inv.
Qed.

Lemma finish_fresh (d : string) (st : state) :
  finished st = false ->
  hashArr (finish d st) = hashArr st ∧ calls (finish d st) = calls st ++ [CbOk d].
Proof. intros Hf. unfold finish. by rewrite Hf. Qed.

Lemma close_loop_chain (rest : list string) :
  rest ≠ [] ->
  ∀ acc st, hashMaker st = Buffer_from_string acc -> finished st = false ->
    hashArr (close_loop rest st) = hashArr st
    ∧ calls (close_loop rest st) = calls st ++ [CbOk (chain acc rest)].
Proof.
  induction rest as [|l tl IH]; [done|]. intros _ acc st Hhm Hfin.
  destruct tl as [|l' tl'].
  - simpl. unfold Hash_update, Hash_digest. rewrite Hhm.
    match goal with
    | |- context [finish ?d ?s] => destruct (finish_fresh d s Hfin) as [Ha Hc]
    end.
    by rewrite Ha, Hc.
  - change (close_loop (l :: l' :: tl') st)
      with (close_loop (l' :: tl')
              (set_hashMaker
                 (Hash_update createHash
                    (Buffer_from_string
                       (Hash_digest sha256_hex
                          (Hash_update (hashMaker st) (Buffer_from_string l))))) st)).
    destruct (IH ltac:(done)
                (sha256_hex (hashMaker st ++ Buffer_from_string l))
                (set_hashMaker
                   (Hash_update createHash
                      (Buffer_from_string
                         (Hash_digest sha256_hex
                            (Hash_update (hashMaker st) (Buffer_from_string l))))) st))
      as [Ha Hc]; [reflexivity|exact Hfin|].
    rewrite Ha, Hc. simpl. by rewrite Hhm.
Qed.

(** The close handler after data events only. *)
Lemma on_close_leaves (content : Buffer) (st : state) :
  data_inv content st ->
  ∃ (segs : list Buffer) (rest : Buffer),
    Forall (λ sg, Z.of_nat (length sg) = SIZE) segs
    ∧ Z.of_nat (length rest) < SIZE
    ∧ concat segs ++ rest = content
    ∧ hashArr (on_close st) = map sha256_hex segs ++ [sha256_hex rest]
    ∧ calls (on_close st)
      = [CbOk (chain_all (map sha256_hex segs ++ [sha256_hex rest]))].
Proof.
  intros [(segs & Hall & Hcat & Harr) Hsz Hlt Hfin Hcalls].
  exists segs, (hashMaker st). split; [done|]. split; [lia|]. split; [done|].
  unfold RsTWs.on_close. cbv zeta. simpl hashArr at 1.
  rewrite Harr. unfold Hash_digest.
  destruct segs as [|sg segs]; simpl.
  - unfold finish. simpl. rewrite Hfin. simpl. by rewrite Hcalls.
  - rewrite length_app. simpl.
    replace (length (map sha256_hex segs) + 1 =? 0)%nat with false
      by (symmetry; apply Nat.eqb_neq; lia).
    match goal with
    | |- context [close_loop ?r ?s] =>
        destruct (close_loop_chain r ltac:(by destruct (map sha256_hex segs))
                    (sha256_hex sg) s eq_refl Hfin) as [Ha Hc]
    end.
    rewrite Ha, Hc. simpl. by rewrite Hcalls.
Qed.

(** A whole run on a fresh object: the leaves are the digests of the full
    segments followed by the digest of what remains, even when nothing
    remains; the callback gets their chained combination. *)
Lemma storeFile_leaves (chunks : list Buffer) :
  Forall (λ ch, Z.of_nat (length ch) <= SIZE) chunks ->
  ∃ (segs : list Buffer) (rest : Buffer),
    Forall (λ sg, Z.of_nat (length sg) = SIZE) segs
    ∧ Z.of_nat (length rest) < SIZE
    ∧ concat segs ++ rest = concat chunks
    ∧ hashArr (storeFile new_Transfer_1 (read_events chunks))
      = map sha256_hex segs ++ [sha256_hex rest]
    ∧ calls (storeFile new_Transfer_1 (read_events chunks))
      = [CbOk (chain_all (map sha256_hex segs ++ [sha256_hex rest]))].
Proof.
  intros Hb. unfold RsTWs.storeFile, read_events.
  rewrite fold_left_app. simpl.
  apply on_close_leaves.
  apply (data_run_inv chunks Hb [] _ data_inv_init).
Qed.

Lemma data_keeps_calls (chunks : list Buffer) (st : state) :
  finished (fold_left handle (map EvData chunks) st) = finished st
  ∧ calls (fold_left handle (map EvData chunks) st) = calls st.
Proof.
  revert st. induction chunks as [|ch chunks IH]; intros st; simpl; [done|].
  destruct (IH (on_data ch st)) as [-> ->].
  unfold RsTWs.on_data. cbv zeta.
  by destruct (size st + Z.of_nat (length ch) >=? SIZE).
Qed.

Lemma close_loop_hashArr (rest : list string) (st : state) :
  hashArr (close_loop rest st) = hashArr st.
Proof.
  revert st. induction rest as [|l tl IH]; intros st; [done|].
  destruct tl as [|l' tl'].
  - simpl. unfold finish. by destruct (finished _).
  - change (close_loop (l :: l' :: tl') st)
      with (close_loop (l' :: tl')
              (set_hashMaker
                 (Hash_update createHash
                    (Buffer_from_string
                       (Hash_digest sha256_hex
                          (Hash_update (hashMaker st) (Buffer_from_string l))))) st)).
    by rewrite IH.
Qed.

Lemma single_leaf_direct (chunks : list Buffer) (l : string) :
  hashArr (storeFile new_Transfer_1 (read_events chunks)) = [l] ->
  calls (storeFile new_Transfer_1 (read_events chunks)) = [CbOk l].
Proof.
  unfold RsTWs.storeFile, read_events. rewrite fold_left_app. simpl.
  set (st := fold_left handle (map EvData chunks) _).
  destruct (data_keeps_calls chunks (mkState new_Transfer_1 0 createHash false []))
    as [Hf Hc]. fold st in Hf, Hc. simpl in Hf, Hc.
  unfold RsTWs.on_close. cbv zeta. simpl.
  destruct (hashArr st) as [|l0 tl] eqn:Harr; simpl.
  - unfold finish. simpl. rewrite Hf. simpl. rewrite Hc.
    intros [= <-]. reflexivity.
  - rewrite length_app. simpl.
    replace (length tl + 1 =? 0)%nat with false
      by (symmetry; apply Nat.eqb_neq; lia).
    rewrite close_loop_hashArr. simpl.
    intros [= _ Htl]. by destruct tl.
Qed.

End Transfer_1.

(** C6. A file of exactly 2.5 segment sizes, read in chunks none of which is
    longer than a segment, gives the three leaf digests of its two full
    segments and of the half segment that remains, in offset order, and the
    callback receives H(H(l0 ‖ l1) ‖ l2), where ‖ joins the bytes of the
    hexadecimal digests. Whenever a run ends with exactly one leaf, the
    callback receives that leaf itself. *)
Theorem C6_two_and_a_half_segments
    (sha256_hex : Buffer -> string) (SIZE : Z) (chunks : list Buffer) :
  0 < SIZE ->
  Forall (λ ch, Z.of_nat (length ch) <= SIZE) chunks ->
  let content := concat chunks in
  let st := storeFile sha256_hex SIZE new_Transfer_1 (read_events chunks) in
  (2 * Z.of_nat (length content) = 5 * SIZE ->
   let n := Z.to_nat SIZE in
   let l0 := sha256_hex (firstn n content) in
   let l1 := sha256_hex (firstn n (skipn n content)) in
   let l2 := sha256_hex (skipn (2 * n) content) in
   hashArr st = [l0; l1; l2]
   ∧ calls st
     = [CbOk (sha256_hex
                (Buffer_from_string
                   (sha256_hex (Buffer_from_string l0 ++ Buffer_from_string l1))
                 ++ Buffer_from_string l2))])
  ∧ (∀ l, hashArr st = [l] -> calls st = [CbOk l]).
Proof.
  intros Hpos Hb content st. split.
  - intros Hlen n l0 l1 l2.
    destruct (storeFile_leaves sha256_hex SIZE Hpos chunks Hb)
      as (segs & rest & Hall & Hrest & Hcat & Harr & Hcalls).
    fold st in Harr, Hcalls. fold content in Hcat.
    pose proof (length_concat_segments SIZE segs Hall) as Hsegs.
    assert (Hc : Z.of_nat (length content)
                 = Z.of_nat (length segs) * SIZE + Z.of_nat (length rest)).
    { rewrite <- Hcat, length_app. lia. }
    assert (Hm : length segs = 2%nat) by nia.
    destruct segs as [|s0 [|s1 [|s2 segs]]]; try discriminate Hm.
    apply Forall_cons in Hall as [H0 Hall]. apply Forall_cons in Hall as [H1 _].
    assert (E0 : n = length s0) by (unfold n; lia).
    assert (E1 : n = length s1) by (unfold n; lia).
    simpl in Hcat. rewrite app_nil_r in Hcat.
    assert (F0 : firstn n content = s0).
    { rewrite <- Hcat, <- app_assoc. by apply take_app_length'. }
    assert (D0 : skipn n content = s1 ++ rest).
    { rewrite <- Hcat, <- app_assoc. by apply drop_app_length'. }
    assert (F1 : firstn n (skipn n content) = s1).
    { rewrite D0. by apply take_app_length'. }
    assert (D1 : skipn (2 * n) content = rest).
    { replace (2 * n)%nat with (n + n)%nat by lia.
      rewrite <- drop_drop, D0. by apply drop_app_length'. }
    unfold l0, l1, l2. rewrite F0, F1, D1.
    rewrite Harr, Hcalls. simpl. done.
  - intros l. apply single_leaf_direct.
Qed.

Lemma C6_two_and_a_half_segments_witness :
  hashArr (storeFile toy_hex 4 new_Transfer_1 (read_events chunks_two_and_a_half))
  = ["0123#"; "4567#"; "89#"]
  ∧ calls (storeFile toy_hex 4 new_Transfer_1 (read_events chunks_two_and_a_half))
    = [CbOk "0123#4567##89##"].
Proof.
  refine (proj1 (C6_two_and_a_half_segments toy_hex 4 chunks_two_and_a_half _ _) _).
  - lia.
  - repeat constructor; simpl; lia.
  - reflexivity.
Defined.

(** C3. What the code does on a file whose length is an exact multiple k >= 1
    of the segment size: the data handler pushes a leaf each time a segment
    fills up, the k-th time on the last byte, and the close handler then
    pushes the digest of the empty remainder. The leaf list has k + 1
    entries and ends with the digest of no bytes. *)
Theorem C3_exact_multiple_has_trailing_empty_leaf
    (sha256_hex : Buffer -> string) (SIZE : Z) (chunks : list Buffer) (k : nat) :
  0 < SIZE ->
  Forall (λ ch, Z.of_nat (length ch) <= SIZE) chunks ->
  (1 <= k)%nat ->
  Z.of_nat (length (concat chunks)) = Z.of_nat k * SIZE ->
  let st := storeFile sha256_hex SIZE new_Transfer_1 (read_events chunks) in
  length (hashArr st) = S k
  ∧ last (hashArr st) = Some (sha256_hex []).
Proof.
  intros Hpos Hb Hk Hlen st.
  destruct (storeFile_leaves sha256_hex SIZE Hpos chunks Hb)
    as (segs & rest & Hall & Hrest & Hcat & Harr & _).
  fold st in Harr.
  pose proof (length_concat_segments SIZE segs Hall) as Hsegs.
  assert (Hc : Z.of_nat k * SIZE
               = Z.of_nat (length segs) * SIZE + Z.of_nat (length rest)).
  { rewrite <- Hlen, <- Hcat, length_app. lia. }
  destruct (Z.div_mod_unique SIZE (Z.of_nat k) (Z.of_nat (length segs))
              0 (Z.of_nat (length rest))) as [Hm Hr]; [lia|lia|lia|].
  destruct rest; [|discriminate Hr].
  rewrite Harr. split.
  - rewrite length_app, length_map. simpl. lia.
  - apply last_snoc.
Qed.

Lemma C3_exact_multiple_has_trailing_empty_leaf_witness :
  length (hashArr (storeFile toy_hex 4 new_Transfer_1 (read_events chunks_two_exact)))
  = 3%nat
  ∧ last (hashArr (storeFile toy_hex 4 new_Transfer_1 (read_events chunks_two_exact)))
    = Some "#".
Proof.
  refine (C3_exact_multiple_has_trailing_empty_leaf
            toy_hex 4 chunks_two_exact 2 _ _ _ _).
  - lia.
  - repeat constructor; simpl; lia.
  - lia.
  - reflexivity.
Defined.

(** The same on one segment read as one chunk: two leaves, and the callback
    gets a combination instead of the digest of the content. *)
Example one_exact_segment (sha256_hex : Buffer -> string) :
  let st := storeFile sha256_hex 4 new_Transfer_1 (read_events chunks_one_exact) in
  hashArr st = [sha256_hex (bytes "0123"); sha256_hex []]
  ∧ calls st
    = [CbOk (sha256_hex (Buffer_from_string (sha256_hex (bytes "0123"))
                         ++ Buffer_from_string (sha256_hex [])))].
Proof. split; reflexivity. Qed.

(** The program's own segment size. *)
Corollary SIZE_1G_leaves (sha256_hex : Buffer -> string) (chunks : list Buffer) :
  Forall (λ ch, Z.of_nat (length ch) <= SIZE_1G) chunks ->
  ∃ (segs : list Buffer) (rest : Buffer),
    Forall (λ sg, Z.of_nat (length sg) = SIZE_1G) segs
    ∧ Z.of_nat (length rest) < SIZE_1G
    ∧ concat segs ++ rest = concat chunks
    ∧ hashArr (storeFile sha256_hex SIZE_1G new_Transfer_1 (read_events chunks))
      = map sha256_hex segs ++ [sha256_hex rest].
Proof.
  intros Hb.
  destruct (storeFile_leaves sha256_hex SIZE_1G ltac:(reflexivity) chunks Hb)
    as (segs & rest & ? & ? & ? & ? & _).
  by exists segs, rest.
Qed.

End TransferSpec.

(** * Properties of the File node (file.js) *)

Module FileSpec.
Import JS Forest.

(** An xstat that [update] does not reject. *)
Local Abbreviation accepted x s :=
  (typeof (x_magic x) = "string" ∧ x_uuid x = uuid (file s)).

(** ** Frame facts of the helper methods *)

Lemma startWorker_fields (s : Sys) :
  let s' := File_startWorker s in
  parent (file s') = parent (file s) ∧ uuid (file s') = uuid (file s)
  ∧ name (file s') = name (file s) ∧ magic (file s') = magic (file s)
  ∧ hash (file s') = hash (file s) ∧ hashFail (file s') = hashFail (file s)
  ∧ paused (file s') = paused (file s)
  ∧ idx s' = idx s ∧ self s' = self s ∧ missing s' = missing s.
Proof.
  unfold File_startWorker. cbv zeta.
  destruct (negb _ && negb _ && _); simpl; by repeat split.
Qed.

Lemma stopWorker_fields (s : Sys) :
  file (File_stopWorker s) = file s ∧ idx (File_stopWorker s) = idx s
  ∧ self (File_stopWorker s) = self s ∧ missing (File_stopWorker s) = missing s
  ∧ length (jobs (File_stopWorker s)) = length (jobs s).
Proof.
  unfold File_stopWorker, Worker_abort.
  destruct (worker (file s)) as [j|]; [|done].
  destruct (jobs s !! j) as [job|]; [|done].
  destruct (status job); simpl; try done.
  by rewrite length_insert.
Qed.

Lemma index_fields (s : Sys) :
  file (File_index s) = file s ∧ jobs (File_index s) = jobs s
  ∧ self (File_index s) = self s ∧ missing (File_index s) = missing s.
Proof. unfold File_index. by destruct (truthy _). Qed.

Lemma unindex_fields (s : Sys) :
  file (File_unindex s) = file s ∧ jobs (File_unindex s) = jobs s
  ∧ self (File_unindex s) = self s ∧ missing (File_unindex s) = missing s.
Proof. unfold File_unindex. by destruct (truthy _). Qed.

Lemma startWorker_jobs (s : Sys) :
  jobs (File_startWorker s)
  = jobs s ++ (if may_start (file s)
               then [mkJob (abspath (file s)) (uuid (file s)) Running] else [])
  ∧ worker (file (File_startWorker s))
    = if may_start (file s) then Some (length (jobs s)) else worker (file s).
Proof.
  unfold File_startWorker, may_start. cbv zeta.
  destruct (negb _ && negb _ && _); simpl; [done|]. by rewrite app_nil_r.
Qed.

(** ** What [update] does, step by step *)

Lemma classic_accept (x : xstat) (s : Sys) :
  (typeof (x_magic x) = "string" ∧ x_uuid x = uuid (file s))
  ∨ ¬ (typeof (x_magic x) = "string" ∧ x_uuid x = uuid (file s)).
Proof.
  destruct (String.eqb_spec (typeof (x_magic x)) "string");
    destruct (String.eqb_spec (x_uuid x) (uuid (file s))); tauto.
Qed.

Lemma update_rejects (x : xstat) (s : Sys) :
  ¬ accepted x s -> ∃ msg, File_update x s = (s, Threw msg).
Proof.
  intros Hn. unfold File_update.
  destruct (String.eqb_spec (typeof (x_magic x)) "string") as [Hm|Hm]; simpl;
    [|by eexists].
  destruct (String.eqb_spec (x_uuid x) (uuid (file s))) as [Hu|Hu]; simpl;
    [|by eexists].
  destruct Hn. by split.
Qed.

Lemma update_accepted (x : xstat) (s : Sys) :
  accepted x s ->
  File_update x s
  = if String.eqb (name (file s)) (x_name x) && strict_eq (hash (file s)) (x_hash x)
    then (s, Returned) else (update_body x s, Returned).
Proof.
  intros [Hm Hu]. unfold File_update, update_body.
  rewrite Hm, Hu, !String.eqb_refl. simpl.
  by destruct (String.eqb (name (file s)) (x_name x) && _).
Qed.

Lemma update_body_fields (x : xstat) (s : Sys) :
  let s' := update_body x s in
  parent (file s') = parent (file s) ∧ uuid (file s') = uuid (file s)
  ∧ magic (file s') = magic (file s) ∧ paused (file s') = paused (file s)
  ∧ name (file s') = x_name x ∧ hash (file s') = x_hash x
  ∧ self s' = self s ∧ missing s' = missing s.
Proof.
  unfold update_body. cbv zeta.
  set (s1 := if negb (String.eqb (name (file s)) (x_name x)) then _ else s).
  assert (Hs1 : parent (file s1) = parent (file s) ∧ uuid (file s1) = uuid (file s)
               ∧ magic (file s1) = magic (file s) ∧ paused (file s1) = paused (file s)
               ∧ name (file s1) = x_name x ∧ hash (file s1) = hash (file s)
               ∧ self s1 = self s ∧ missing s1 = missing s).
  { unfold s1. destruct (String.eqb_spec (name (file s)) (x_name x)) as [E|E]; simpl.
    - by repeat split.
    - destruct (stopWorker_fields s) as (Hf & _ & Hs & Hmi & _).
      destruct (startWorker_fields
                  (upd_file (set_name (x_name x)) (File_stopWorker s)))
        as (? & ? & ? & ? & ? & ? & ? & ? & ? & ?).
      simpl in *. rewrite Hf in *. by repeat split; try congruence. }
  clearbody s1. destruct Hs1 as (? & ? & ? & ? & ? & ? & ? & ?).
  set (s2 := if negb (strict_eq (hash (file s1)) (x_hash x)) then _ else s1).
  assert (Hs2 : parent (file s2) = parent (file s) ∧ uuid (file s2) = uuid (file s)
               ∧ magic (file s2) = magic (file s) ∧ paused (file s2) = paused (file s)
               ∧ name (file s2) = x_name x ∧ hash (file s2) = x_hash x
               ∧ self s2 = self s ∧ missing s2 = missing s).
  { unfold s2, strict_eq.
    destruct (bool_decide_reflect (hash (file s1) = x_hash x)) as [E|E]; simpl.
    - by repeat split; try congruence.
    - destruct (unindex_fields s1) as (Hf & _ & Hs & Hmi).
      destruct (index_fields (upd_file (set_hash (x_hash x)) (File_unindex s1)))
        as (Hf' & _ & Hs' & Hmi').
      rewrite Hf', Hs', Hmi'. simpl. rewrite Hf, Hs, Hmi.
      by repeat split. }
  clearbody s2. destruct Hs2 as (? & ? & ? & ? & ? & ? & ? & ?).
  destruct (strict_eq (hash (file s2)) JUndefined); simpl; by repeat split.
Qed.

Lemma update_body_hashFail (x : xstat) (s : Sys) :
  hashFail (file (update_body x s))
  = if strict_eq (x_hash x) JUndefined then 0 else hashFail (file s).
Proof.
  unfold update_body. cbv zeta.
  set (s1 := if negb (String.eqb (name (file s)) (x_name x)) then _ else s).
  assert (Hs1 : hashFail (file s1) = hashFail (file s)
               ∧ (hash (file s1) = hash (file s))).
  { unfold s1. destruct (String.eqb_spec (name (file s)) (x_name x)) as [E|E]; simpl.
    - done.
    - destruct (stopWorker_fields s) as (Hf & _).
      destruct (startWorker_fields
                  (upd_file (set_name (x_name x)) (File_stopWorker s)))
        as (_ & _ & _ & _ & Hh & Hhf & _).
      simpl in *. by rewrite Hh, Hhf, Hf. }
  clearbody s1. destruct Hs1 as [Hhf Hh].
  set (s2 := if negb (strict_eq (hash (file s1)) (x_hash x)) then _ else s1).
  assert (Hs2 : hashFail (file s2) = hashFail (file s) ∧ hash (file s2) = x_hash x).
  { unfold s2, strict_eq.
    destruct (bool_decide_reflect (hash (file s1) = x_hash x)) as [E|E]; simpl.
    - done.
    - destruct (unindex_fields s1) as (Hf & _).
      destruct (index_fields (upd_file (set_hash (x_hash x)) (File_unindex s1)))
        as (Hf' & _).
      rewrite Hf'. simpl. by rewrite Hf. }
  clearbody s2. destruct Hs2 as [Hhf2 Hh2]. rewrite Hh2.
  by destruct (strict_eq (x_hash x) JUndefined).
Qed.

Lemma update_body_jobs (x : xstat) (s : Sys) :
  name (file s) ≠ x_name x ->
  jobs (update_body x s)
  = jobs (File_stopWorker s)
    ++ (if may_start (file s)
        then [mkJob (abspath (set_name (x_name x) (file s))) (uuid (file s)) Running]
        else [])
  ∧ worker (file (update_body x s))
    = if may_start (file s) then Some (length (jobs s)) else worker (file s).
Proof.
  intros Hne. unfold update_body. cbv zeta.
  destruct (String.eqb_spec (name (file s)) (x_name x)) as [E|_]; [done|]. simpl.
  set (s1 := File_startWorker _).
  assert (Hs1 : jobs s1
    = jobs (File_stopWorker s)
      ++ (if may_start (file s)
          then [mkJob (abspath (set_name (x_name x) (file s))) (uuid (file s)) Running]
          else [])
    ∧ worker (file s1)
      = if may_start (file s) then Some (length (jobs s)) else worker (file s)).
  { unfold s1.
    destruct (startWorker_jobs (upd_file (set_name (x_name x)) (File_stopWorker s)))
      as [Hj Hw].
    destruct (stopWorker_fields s) as (Hf & _ & _ & _ & Hlen).
    rewrite Hj, Hw. simpl. rewrite Hf, Hlen. done. }
  clearbody s1. destruct Hs1 as [Hj Hw].
  set (s2 := if negb (strict_eq (hash (file s1)) (x_hash x)) then _ else s1).
  assert (Hs2 : jobs s2 = jobs s1 ∧ worker (file s2) = worker (file s1)).
  { unfold s2. destruct (strict_eq (hash (file s1)) (x_hash x)); simpl; [done|].
    destruct (unindex_fields s1) as (Hf & Hjb & _).
    destruct (index_fields (upd_file (set_hash (x_hash x)) (File_unindex s1)))
      as (Hf' & Hjb' & _).
    rewrite Hf', Hjb'. simpl. by rewrite Hf, Hjb. }
  clearbody s2. destruct Hs2 as [Hj2 Hw2].
  destruct (strict_eq (hash (file s2)) JUndefined); simpl; by rewrite Hj2, Hw2.
Qed.

Lemma end_job_fields (j : nat) (s : Sys) :
  file (end_job j s) = file s ∧ idx (end_job j s) = idx s
  ∧ self (end_job j s) = self s ∧ missing (end_job j s) = missing s
  ∧ length (jobs (end_job j s)) = length (jobs s).
Proof.
  unfold end_job. destruct (jobs s !! j); simpl; [|done].
  by rewrite length_insert.
Qed.


(** C9. The constructor throws exactly when [xstat.magic] is not a string or
    [xstat.hash] is neither undefined nor a string. With a magic string it
    builds a File when the hash is undefined or a string, and throws the
    hash message for every other hash (null, a boolean, a number): with
    magic 'JPEG' and hash 42 there is no File. *)
Theorem C9_constructor_checks_hash :
  (∀ x : xstat,
      (∃ msg, File_constructor x = inr msg)
      ↔ (typeof (x_magic x) ≠ "string"
         ∨ (x_hash x ≠ JUndefined ∧ typeof (x_hash x) ≠ "string")))
  ∧ (∀ (u n m : string) (h : jsval),
        match h with
        | JUndefined | JString _ =>
            File_constructor (mkXstat u n (JString m) h)
            = inl (mkFile None u n (JString m) h None 0 false)
        | _ =>
            File_constructor (mkXstat u n (JString m) h)
            = inr "xstat hash must be either a string or undefined"
        end)
  ∧ File_constructor (mkXstat "u-1" "a.jpg" (JString "JPEG") (JNumber 42))
    = inr "xstat hash must be either a string or undefined".
Proof.
  split; [|split].
  - intros x. unfold File_constructor, strict_eq.
    destruct (String.eqb_spec (typeof (x_magic x)) "string") as [Hm|Hm]; simpl.
    + destruct (bool_decide_reflect (x_hash x = JUndefined)) as [Hh|Hh]; simpl.
      * split; [intros [msg [=]]|]. intros [?|[? _]]; done.
      * destruct (String.eqb_spec (typeof (x_hash x)) "string") as [Ht|Ht]; simpl.
        -- split; [intros [msg [=]]|]. intros [?|[_ ?]]; done.
        -- split; [by right|by eexists].
    + split; [by left|by eexists].
  - intros u n m h. by destruct h.
  - reflexivity.
Qed.

(** C10. An update with a magic string and the File's uuid returns normally
    and leaves uuid, magic and paused as they were; the magic of the xstat
    is not read beyond the type test, so a different magic string is never
    written to the File. *)
Theorem C10_update_keeps_uuid_magic_paused (x : xstat) (s : Sys) :
  typeof (x_magic x) = "string" ->
  x_uuid x = uuid (file s) ->
  snd (File_update x s) = Returned
  ∧ uuid (file (fst (File_update x s))) = uuid (file s)
  ∧ magic (file (fst (File_update x s))) = magic (file s)
  ∧ paused (file (fst (File_update x s))) = paused (file s).
Proof.
  intros Hm Hu. rewrite update_accepted by done.
  destruct (String.eqb (name (file s)) (x_name x) && _); simpl; [done|].
  destruct (update_body_fields x s) as (_ & ? & ? & ? & _). done.
Qed.

Lemma C10_update_keeps_uuid_magic_paused_witness :
  let x := mkXstat "u-1" "b.jpg" (JString "PNG") (JString "abc") in
  snd (File_update x hashed_sys) = Returned
  ∧ uuid (file (fst (File_update x hashed_sys))) = "u-1"
  ∧ magic (file (fst (File_update x hashed_sys))) = JString "JPEG"
  ∧ paused (file (fst (File_update x hashed_sys))) = false.
Proof.
  exact (C10_update_keeps_uuid_magic_paused
           (mkXstat "u-1" "b.jpg" (JString "PNG") (JString "abc")) hashed_sys
           eq_refl eq_refl).
Defined.






(** ** Jobs *)

Lemma stopWorker_cancels (s : Sys) (j : nat) :
  worker (file s) = Some j ->
  job_has_status s j Running = true ->
  ∃ job, jobs s !! j = Some job
         ∧ jobs (File_stopWorker s) = <[j := set_status Cancelling job]> (jobs s).
Proof.
  intros Hw Hr. unfold File_stopWorker, Worker_abort. rewrite Hw.
  unfold job_has_status in Hr.
  destruct (jobs s !! j) as [job|]; [|done].
  apply bool_decide_eq_true in Hr. exists job. by rewrite Hr.
Qed.

Lemma stopWorker_idle (s : Sys) :
  worker (file s) = None -> File_stopWorker s = s.
Proof. intros Hw. unfold File_stopWorker. by rewrite Hw. Qed.

Lemma transient_not_abort (code : string) :
  is_transient code = true ->
  (String.eqb code "ENOTDIR" || String.eqb code "ENOENT") = false
  ∧ String.eqb code "EABORT" = false.
Proof.
  unfold is_transient. intros H. apply andb_true_iff in H as [H1 H2].
  apply negb_true_iff in H1, H2. done.
Qed.

(** The error handler on a failure that is neither path-missing nor
    cancellation: the handle is cleared and [startWorker] runs; nothing
    writes [hashFail]. *)
Lemma transient_failure_step (code : string) (s : Sys) (j : nat) :
  is_transient code = true ->
  job_has_status s j Running = true ->
  may_start (file s) = true ->
  ∃ s', exec (WorkerError j code) s = Some (s', Returned)
        ∧ file s' = set_worker (Some (length (jobs s))) (file s)
        ∧ length (jobs s') = S (length (jobs s))
        ∧ job_has_status s' (length (jobs s)) Running = true.
Proof.
  intros Ht Hr Hg. destruct (transient_not_abort code Ht) as [Hm Ha].
  simpl. rewrite Hr, Ha. simpl. eexists. split; [reflexivity|].
  unfold on_worker_error. cbv zeta. rewrite Hm, Ha.
  destruct (end_job_fields j s) as (Hf & _ & _ & _ & Hlen).
  unfold File_startWorker. cbv zeta. simpl. rewrite Hf.
  change (negb (truthy (hash (file s))) && negb (paused (file s))
          && (hashFail (file s) <? 5)) with (may_start (file s)).
  rewrite Hg. simpl. rewrite Hlen. split; [by destruct (file s)|]. split.
  - rewrite length_app. simpl. lia.
  - unfold job_has_status. simpl.
    rewrite lookup_app_r by lia. by rewrite Hlen, Nat.sub_diag.
Qed.

(** C1, as the code has it: after any number [n] of consecutive failures
    that are neither path-missing nor cancellation, the counter of a
    hashless, unpaused File below the cap still has the value it started
    with, [n] more jobs have been started, and one of them is running. The
    counter is never incremented, so the cap of 5 never stops the retries. *)
Theorem C1_transient_failures_not_counted
    (n : nat) (code : string) (s : Sys) (j : nat) :
  is_transient code = true ->
  worker (file s) = Some j ->
  job_has_status s j Running = true ->
  truthy (hash (file s)) = false ->
  paused (file s) = false ->
  hashFail (file s) < 5 ->
  ∃ s', fail_times n code s = Some s'
        ∧ hashFail (file s') = hashFail (file s)
        ∧ length (jobs s') = (length (jobs s) + n)%nat
        ∧ ∃ j', worker (file s') = Some j' ∧ job_has_status s' j' Running = true.
Proof.
  intros Ht Hw Hr Hh Hp Hc.
  assert (Hg : may_start (file s) = true).
  { unfold may_start. rewrite Hh, Hp. simpl. by apply Z.ltb_lt. }
  clear Hh Hp Hc. revert s j Hw Hr Hg.
  induction n as [|n IH]; intros s j Hw Hr Hg; cbn [fail_times].
  - exists s. repeat split; [lia|]. by exists j.
  - rewrite Hw.
    destruct (transient_failure_step code s j Ht Hr Hg) as (s1 & -> & Hf & Hl & Hr1).
    destruct (IH s1 (length (jobs s))) as (s' & -> & Hhf & Hlen & Hj).
    + by rewrite Hf.
    + exact Hr1.
    + rewrite Hf. rewrite <- Hg. by destruct (file s).
    + exists s'. split; [done|]. rewrite Hhf, Hlen, Hl, Hf.
      split; [by destruct (file s)|]. split; [lia|done].
Qed.

Lemma C1_transient_failures_not_counted_witness :
  ∃ s', fail_times 6 "EIO" hashless_sys = Some s'
        ∧ hashFail (file s') = 0
        ∧ length (jobs s') = 7%nat
        ∧ ∃ j', worker (file s') = Some j' ∧ job_has_status s' j' Running = true.
Proof.
  exact (C1_transient_failures_not_counted 6 "EIO" hashless_sys 0
           eq_refl eq_refl eq_refl eq_refl eq_refl eq_refl).
Defined.

(** C4, as the code has it with a worker that acknowledges an abort later.
    A rename aborts job 0 and starts job 1; when the acknowledgement of job
    0 arrives, its handler clears the handle, which by then is that of job
    1: job 1 runs on with no handle to it. A pause then finds nothing to
    cancel, and the resume starts job 2 beside job 1. The same happens when
    the new job is started by the resume of a pause. And whatever the
    worker does, [startWorker] does not look at the handle it holds: a
    [resume()] on a File that is not paused starts job 1 beside job 0. *)
Theorem C4_stale_acknowledgement_breaks_single_job :
  option_map observe (run [Attach "/d"; Update (xs "b.jpg" JUndefined)] fresh_sys)
  = Some (Some 1%nat, [1%nat])
  ∧ option_map observe (run rename_race fresh_sys) = Some (None, [1%nat])
  ∧ option_map observe (run (rename_race ++ [Pause; Resume]) fresh_sys)
    = Some (Some 2%nat, [1%nat; 2%nat])
  ∧ option_map observe (run resume_race fresh_sys) = Some (None, [1%nat])
  ∧ option_map observe (run (resume_race ++ [Pause; Resume]) fresh_sys)
    = Some (Some 2%nat, [1%nat; 2%nat])
  ∧ option_map observe (run [Attach "/d"; Resume] fresh_sys)
    = Some (Some 1%nat, [0%nat; 1%nat]).
Proof. repeat split; vm_compute; reflexivity. Qed.

(** C8, as the claim has it, fails: renaming a hashed File through an update
    sets the new name and starts no job. *)
Lemma C8_rename_of_hashed_file_starts_no_job :
  let r := File_update (xs "b.jpg" (JString "abc")) hashed_sys in
  jobs hashed_sys = []
  ∧ snd r = Returned
  ∧ name (file (fst r)) = "b.jpg"
  ∧ jobs (fst r) = []
  ∧ worker (file (fst r)) = None.
Proof. vm_compute. done. Qed.

(** C8, amended. [update] throws exactly when the magic of the xstat is not
    a string or its uuid is not the File's. Otherwise it returns; it leaves
    the state as it is when neither name nor digest differs; and when the
    name differs it asks the job it holds, if any, to abort, sets the new
    name, and starts a job against the new path only if the File (as it is
    before the digest of the xstat is applied) has no digest, is not paused
    and has fewer than 5 failures; otherwise no job is started. *)
Theorem C8_update_rename_restarts_under_guard (x : xstat) (s : Sys) :
  ((∃ msg, snd (File_update x s) = Threw msg)
   ↔ ¬ (typeof (x_magic x) = "string" ∧ x_uuid x = uuid (file s)))
  ∧ (typeof (x_magic x) = "string" -> x_uuid x = uuid (file s) ->
     snd (File_update x s) = Returned
     ∧ (name (file s) = x_name x -> hash (file s) = x_hash x ->
        fst (File_update x s) = s)
     ∧ (name (file s) ≠ x_name x ->
        name (file (fst (File_update x s))) = x_name x
        ∧ jobs (fst (File_update x s))
          = jobs (File_stopWorker s)
            ++ (if may_start (file s)
                then [mkJob (abspath (set_name (x_name x) (file s)))
                            (uuid (file s)) Running]
                else [])
        ∧ worker (file (fst (File_update x s)))
          = if may_start (file s) then Some (length (jobs s))
            else worker (file s))).
Proof.
  split.
  - split.
    + intros [msg Hmsg] Hacc. rewrite update_accepted in Hmsg by done.
      by destruct (String.eqb (name (file s)) (x_name x) && _).
    + intros Hn. destruct (update_rejects x s Hn) as [msg ->]. by exists msg.
  - intros Hm Hu. rewrite update_accepted by done.
    split; [by destruct (String.eqb (name (file s)) (x_name x) && _)|]. split.
    + intros Hn Hh. rewrite Hn, Hh, String.eqb_refl. unfold strict_eq.
      by rewrite bool_decide_eq_true_2.
    + intros Hne.
      destruct (String.eqb_spec (name (file s)) (x_name x)) as [|_]; [done|].
      simpl. destruct (update_body_fields x s) as (_ & _ & _ & _ & Hname & _).
      destruct (update_body_jobs x s Hne) as [Hj Hw]. done.
Qed.

Lemma C8_update_rename_restarts_under_guard_witness :
  let r := File_update (xs "b.jpg" JUndefined) hashless_sys in
  name (file (fst r)) = "b.jpg"
  ∧ jobs (fst r) = [mkJob "/d/a.jpg" "u-1" Cancelling; mkJob "/d/b.jpg" "u-1" Running]
  ∧ worker (file (fst r)) = Some 1%nat.
Proof.
  refine (proj2 (proj2 (proj2 (C8_update_rename_restarts_under_guard
                                 (xs "b.jpg" JUndefined) hashless_sys)
                                 eq_refl eq_refl)) _).
  simpl. discriminate.
Defined.

(** [pause()] is the same method whichever worker it is given. *)
Lemma File_pause_of_Worker_abort (s : Sys) :
  File_pause_of Worker_abort s = File_pause s.
Proof. reflexivity. Qed.



(** ** The index *)

Lemma index_add_elem (o o' : positive) (d d' : jsval)
    (i : gmap jsval (gset positive)) :
  indexed (index_add o d i) d' o' ↔ (o' = o ∧ d' = d) ∨ indexed i d' o'.
Proof.
  unfold indexed, index_add. destruct (decide (d = d')) as [<-|Hne].
  - rewrite lookup_total_insert_eq. set_solver.
  - rewrite lookup_total_insert_ne by done. naive_solver.
Qed.

Lemma index_remove_elem (o o' : positive) (d d' : jsval)
    (i : gmap jsval (gset positive)) :
  indexed (index_remove o d i) d' o' ↔ indexed i d' o' ∧ ¬ (o' = o ∧ d' = d).
Proof.
  unfold indexed, index_remove. destruct (decide (d = d')) as [<-|Hne].
  - rewrite lookup_total_alter_eq, lookup_total_alt.
    destruct (i !! d) as [st|]; simpl; [set_solver|].
    change (inhabitant : gset positive) with (∅ : gset positive). set_solver.
  - rewrite lookup_total_alter_ne by done. naive_solver.
Qed.

Lemma index_inv_frame (s s' : Sys) :
  idx s' = idx s -> self s' = self s ->
  hash (file s') = hash (file s) -> parent (file s') = parent (file s) ->
  index_inv s -> index_inv s'.
Proof. unfold index_inv. intros -> -> -> ->. done. Qed.

Lemma index_establishes (s : Sys) :
  (∀ d, indexed (idx s) d (self s) -> hash (file s) = d ∧ truthy d = true) ->
  (∀ d, indexed (idx (File_index s)) d (self s)
        -> hash (file s) = d ∧ truthy d = true)
  ∧ (truthy (hash (file s)) = true ->
     indexed (idx (File_index s)) (hash (file s)) (self s)).
Proof.
  intros Hinv. unfold File_index.
  destruct (truthy (hash (file s))) eqn:Ht; simpl; [|done]. split.
  - intros d [[_ ->]|Hd]%index_add_elem; [done|by apply Hinv].
  - intros _. apply index_add_elem. by left.
Qed.

Lemma unindex_clears (s : Sys) :
  (∀ d, indexed (idx s) d (self s) -> hash (file s) = d ∧ truthy d = true) ->
  unindexed (File_unindex s).
Proof.
  intros Hinv d. unfold File_unindex.
  destruct (truthy (hash (file s))) eqn:Ht; simpl.
  - intros [Hd Hn]%index_remove_elem. apply Hn.
    by destruct (Hinv d Hd) as [-> _].
  - intros Hd. destruct (Hinv d Hd) as [<- Ht']. congruence.
Qed.

(** The rename part of [update] touches neither index nor digest. *)
Lemma rename_part_frame (n : string) (s : Sys) :
  let s' := File_startWorker (upd_file (set_name n) (File_stopWorker s)) in
  idx s' = idx s ∧ self s' = self s
  ∧ hash (file s') = hash (file s) ∧ parent (file s') = parent (file s).
Proof.
  cbv zeta.
  destruct (startWorker_fields (upd_file (set_name n) (File_stopWorker s)))
    as (Hp & _ & _ & _ & Hh & _ & _ & Hi & Hs & _).
  destruct (stopWorker_fields s) as (Hf & Hi' & Hs' & _).
  rewrite Hp, Hh, Hi, Hs. simpl. by rewrite Hf, Hi', Hs'.
Qed.

Lemma update_body_inv (x : xstat) (s : Sys) :
  index_inv s -> index_inv (update_body x s).
Proof.
  intros Hinv. unfold update_body. cbv zeta.
  set (s1 := if negb (String.eqb (name (file s)) (x_name x)) then _ else s).
  assert (Hs1 : index_inv s1 ∧ self s1 = self s).
  { unfold s1. destruct (negb _); [|done].
    destruct (rename_part_frame (x_name x) s) as (? & ? & ? & ?).
    split; [by eapply index_inv_frame|done]. }
  clearbody s1. destruct Hs1 as [[Hin Hat] Hself].
  set (s2 := if negb (strict_eq (hash (file s1)) (x_hash x)) then _ else s1).
  assert (Hs2 : index_inv s2).
  { unfold s2. destruct (negb _); [|done].
    pose proof (unindex_clears s1 Hin) as Hun.
    destruct (unindex_fields s1) as (Hf & _ & Hsf & _).
    set (s1' := upd_file (set_hash (x_hash x)) (File_unindex s1)).
    assert (Hnone : ∀ d, indexed (idx s1') d (self s1')
                         -> hash (file s1') = d ∧ truthy d = true).
    { intros d Hd. by destruct (Hun d). }
    destruct (index_establishes s1' Hnone) as [Ha Hb].
    destruct (index_fields s1') as (Hf' & _ & Hsf' & _).
    split; rewrite Hf', Hsf'.
    - exact Ha.
    - intros _. exact Hb. }
  clearbody s2. by destruct (strict_eq (hash (file s2)) JUndefined).
Qed.

Lemma update_inv (x : xstat) (s : Sys) :
  index_inv s ->
  index_inv (fst (File_update x s)) ∧ self (fst (File_update x s)) = self s.
Proof.
  intros Hinv.
  destruct (classic_accept x s) as [Hacc|Hrej].
  - rewrite update_accepted by done.
    destruct (String.eqb (name (file s)) (x_name x) && _); simpl; [done|].
    split; [by apply update_body_inv|].
    by destruct (update_body_fields x s) as (_ & _ & _ & _ & _ & _ & ? & _).
  - by destruct (update_rejects x s Hrej) as [msg ->].
Qed.

Lemma on_worker_error_frame (code : string) (s : Sys) :
  let s' := on_worker_error code s in
  idx s' = idx s ∧ self s' = self s
  ∧ hash (file s') = hash (file s) ∧ parent (file s') = parent (file s).
Proof.
  unfold on_worker_error. cbv zeta.
  destruct (String.eqb code "ENOTDIR" || String.eqb code "ENOENT"); [done|].
  destruct (String.eqb code "EABORT"); [done|].
  destruct (startWorker_fields (upd_file (set_worker None) s))
    as (Hp & _ & _ & _ & Hh & _ & _ & Hi & Hs & _).
  by rewrite Hp, Hh, Hi, Hs.
Qed.

(** Every step keeps the invariant of the index, and the identity. *)
Lemma exec_index_inv (o : op) (s s' : Sys) (out : outcome) :
  index_inv s -> exec o s = Some (s', out) ->
  index_inv s' ∧ self s' = self s.
Proof.
  intros Hinv. destruct o as [p| | | |x|j code|j x|o' d|o' d]; simpl.
  - intros [= <- _]. unfold File_attach, Node_attach.
    set (s0 := upd_file (set_parent (Some p)) s).
    destruct (index_establishes s0 (proj1 Hinv)) as [Ha Hb].
    destruct (index_fields s0) as (Hf & _ & Hs & _).
    destruct (startWorker_fields (File_index s0))
      as (Hp & _ & _ & _ & Hh & _ & _ & Hi & Hs' & _).
    split; [|by rewrite Hs', Hs].
    apply (index_inv_frame (File_index s0)); try done.
    split; rewrite Hf, Hs; [exact Ha|]. intros _. exact Hb.
  - intros [= <- _]. unfold File_detach, Node_detach.
    destruct (stopWorker_fields s) as (Hf & Hi & Hs & _).
    assert (Hin : ∀ d, indexed (idx (File_stopWorker s)) d (self (File_stopWorker s))
                       -> hash (file (File_stopWorker s)) = d ∧ truthy d = true).
    { rewrite Hf, Hi, Hs. exact (proj1 Hinv). }
    pose proof (unindex_clears _ Hin) as Hun.
    destruct (unindex_fields (File_stopWorker s)) as (_ & _ & Hs2 & _).
    split; [|simpl; by rewrite Hs2, Hs]. split; simpl.
    + intros d Hd. by destruct (Hun d).
    + done.
  - unfold File_pause. destruct (paused (file s)); intros [= <- _]; [done|].
    destruct (stopWorker_fields s) as (Hf & Hi & Hs & _).
    split; [|done]. apply (index_inv_frame s); simpl; try done; by rewrite Hf.
  - intros [= <- _]. unfold File_resume.
    destruct (startWorker_fields (upd_file (set_paused false) s))
      as (Hp & _ & _ & _ & Hh & _ & _ & Hi & Hs & _).
    split; [|done]. by apply (index_inv_frame s).
  - intros E. assert (s' = fst (File_update x s)) as ->.
    { by destruct (File_update x s); injection E as <- _. }
    by apply update_inv.
  - destruct (_ || _); [|done]. intros [= <- _].
    destruct (end_job_fields j s) as (Hf & Hi & Hs & _).
    destruct (on_worker_error_frame code (end_job j s)) as (Hi' & Hs' & Hh' & Hp').
    rewrite Hf in Hh', Hp'. rewrite Hi in Hi'. rewrite Hs in Hs'.
    split; [by apply (index_inv_frame s)|done].
  - destruct (job_has_status s j Running); [|done]. intros E.
    unfold on_worker_finish in E.
    set (s0 := upd_file (set_worker None) (end_job j s)) in *.
    assert (s' = fst (File_update x s0)) as ->.
    { by destruct (File_update x s0); injection E as <- _. }
    destruct (end_job_fields j s) as (Hf & Hi & Hs & _).
    assert (Hinv0 : index_inv s0).
    { apply (index_inv_frame s); try done; simpl; by rewrite Hf. }
    destruct (update_inv x s0 Hinv0) as [? ->]. done.
  - destruct (bool_decide_reflect (o' = self s)) as [|Hne]; [done|].
    intros [= <- _]. split; [|done]. destruct Hinv as [H1 H2]. split; simpl.
    + intros d' [[Heq _]|Hd]%index_add_elem; [done|by apply H1].
    + intros Hp Ht. apply index_add_elem. right. by apply H2.
  - destruct (bool_decide_reflect (o' = self s)) as [|Hne]; [done|].
    intros [= <- _]. split; [|done]. destruct Hinv as [H1 H2]. split; simpl.
    + intros d' [Hd _]%index_remove_elem. by apply H1.
    + intros Hp Ht. apply index_remove_elem. split; [by apply H2|].
      intros [Heq _]. done.
Qed.

Lemma update_hash (x : xstat) (s : Sys) :
  hash (file (fst (File_update x s))) = hash (file s)
  ∨ hash (file (fst (File_update x s))) = x_hash x.
Proof.
  destruct (classic_accept x s) as [Hacc|Hrej].
  - rewrite update_accepted by done.
    destruct (String.eqb (name (file s)) (x_name x) && _); simpl; [by left|].
    right. by destruct (update_body_fields x s) as (_ & _ & _ & _ & _ & ? & _).
  - left. by destruct (update_rejects x s Hrej) as [msg ->].
Qed.

(** A step whose xstat, if any, carries a digest or nothing keeps the
    digest of the File a digest or nothing. *)
Lemma exec_digest_ok (o : op) (s s' : Sys) (out : outcome) :
  op_digests_ok o = true ->
  digest_or_undefined (hash (file s)) = true ->
  exec o s = Some (s', out) ->
  digest_or_undefined (hash (file s')) = true.
Proof.
  intros Hop Hd. destruct o as [p| | | |x|j code|j x|o' d|o' d]; simpl in *.
  - intros [= <- _]. unfold File_attach, Node_attach.
    destruct (startWorker_fields (File_index (upd_file (set_parent (Some p)) s)))
      as (_ & _ & _ & _ & -> & _).
    destruct (index_fields (upd_file (set_parent (Some p)) s)) as (-> & _). done.
  - intros [= <- _]. unfold File_detach, Node_detach. simpl.
    destruct (unindex_fields (File_stopWorker s)) as (-> & _).
    destruct (stopWorker_fields s) as (-> & _). done.
  - unfold File_pause. destruct (paused (file s)); intros [= <- _]; [done|].
    simpl. destruct (stopWorker_fields s) as (-> & _). done.
  - intros [= <- _]. unfold File_resume.
    destruct (startWorker_fields (upd_file (set_paused false) s))
      as (_ & _ & _ & _ & -> & _). done.
  - intros E. assert (s' = fst (File_update x s)) as ->.
    { by destruct (File_update x s); injection E as <- _. }
    by destruct (update_hash x s) as [-> | ->].
  - destruct (_ || _); [|done]. intros [= <- _].
    destruct (on_worker_error_frame code (end_job j s)) as (_ & _ & -> & _).
    destruct (end_job_fields j s) as (-> & _). done.
  - destruct (job_has_status s j Running); [|done]. intros E.
    unfold on_worker_finish in E.
    set (s0 := upd_file (set_worker None) (end_job j s)) in *.
    assert (s' = fst (File_update x s0)) as ->.
    { by destruct (File_update x s0); injection E as <- _. }
    destruct (update_hash x s0) as [-> | ->]; [|done].
    unfold s0. simpl. destruct (end_job_fields j s) as (-> & _). done.
  - destruct (bool_decide _); [done|]. by intros [= <- _].
  - destruct (bool_decide _); [done|]. by intros [= <- _].
Qed.

Lemma run_index_inv (ops : list op) :
  ∀ s s', index_inv s -> digest_or_undefined (hash (file s)) = true ->
    forallb op_digests_ok ops = true ->
    run ops s = Some s' ->
    index_inv s' ∧ digest_or_undefined (hash (file s')) = true ∧ self s' = self s.
Proof.
  induction ops as [|o ops IH]; intros s s' Hinv Hd Hops; simpl.
  - by intros [= <-].
  - simpl in Hops. apply andb_true_iff in Hops as [Ho Hops].
    destruct (exec o s) as [[s1 out]|] eqn:E; [|done]. intros Hrun.
    destruct (exec_index_inv o s s1 out Hinv E) as [Hinv1 Hs1].
    pose proof (exec_digest_ok o s s1 out Ho Hd E) as Hd1.
    destruct (IH s1 s' Hinv1 Hd1 Hops Hrun) as (? & ? & ->). done.
Qed.

Lemma digest_truthy (h : jsval) :
  digest_or_undefined h = true -> h ≠ JUndefined -> truthy h = true.
Proof. by destruct h. Qed.

(** C7. Take a File built by the constructor from an xstat whose digest is
    undefined or a non-empty string, not yet in the index, and let anything
    happen to it: attach, detach, pause, resume, updates and job events with
    such digests, other Files entering and leaving the index. Whenever it is
    attached afterwards, it is in the index set of a digest exactly when
    that digest is its own and is defined: in one set when it has a digest,
    in none when it has not. Every step keeps this, [update] by removing the
    File under the old digest before it writes the new one and inserting it
    under the new one after. *)
Theorem C7_digest_present_iff_indexed
    (x : xstat) (f : File) (o : positive) (i : gmap jsval (gset positive))
    (ops : list op) (s' : Sys) (d : jsval) :
  File_constructor x = inl f ->
  digest_or_undefined (x_hash x) = true ->
  (∀ d', ¬ indexed i d' o) ->
  forallb op_digests_ok ops = true ->
  run ops (init_sys f o i) = Some s' ->
  parent (file s') ≠ None ->
  indexed (idx s') d (self s') ↔ (hash (file s') = d ∧ d ≠ JUndefined).
Proof.
  intros Hc Hx Hfresh Hops Hrun Hatt.
  assert (Hf : hash f = x_hash x ∧ parent f = None).
  { unfold File_constructor in Hc.
    destruct (negb _); [done|]. destruct (_ && _); [done|].
    by injection Hc as <-. }
  destruct Hf as [Hh Hp].
  assert (Hinv0 : index_inv (init_sys f o i)).
  { split; simpl; [|by rewrite Hp]. intros d' Hd'. by destruct (Hfresh d'). }
  destruct (run_index_inv ops _ s' Hinv0) as ([H1 H2] & Hd & Hs); try done.
  { simpl. by rewrite Hh. }
  split.
  - intros Hin. destruct (H1 d Hin) as [-> Ht]. split; [done|]. by intros ->.
  - intros [<- Hdef]. apply H2; [done|]. by apply digest_truthy.
Qed.

Lemma C7_digest_present_iff_indexed_witness :
  indexed (idx redigest_final) (JString "def") (self redigest_final)
  ∧ ¬ indexed (idx redigest_final) (JString "abc") (self redigest_final).
Proof.
  pose proof (C7_digest_present_iff_indexed
                (xs "a.jpg" (JString "abc")) hashed_file 1%positive ∅
                redigest redigest_final) as W.
  assert (Hfresh : ∀ d', ¬ indexed (∅ : gmap jsval (gset positive)) d' 1%positive).
  { intros d' Hd'. unfold indexed in Hd'. rewrite lookup_total_empty in Hd'.
    exact (not_elem_of_empty (C := gset positive) _ Hd'). }
  split.
  - apply (W (JString "def") eq_refl eq_refl Hfresh eq_refl eq_refl);
      [discriminate|]. split; [reflexivity|discriminate].
  - intros Hin.
    apply (W (JString "abc") eq_refl eq_refl Hfresh eq_refl eq_refl) in Hin;
      [|discriminate].
    destruct Hin as [Hin _]. discriminate Hin.
Defined.

End FileSpec.


(** * More on the chunked hashing (rs-T-ws.js) *)

Module TransferMore.
Import RsTWs RsTWsRest.

Lemma segments_fuel_exact (n : nat) (segs : list Buffer) (rest : Buffer) :
  Forall (λ sg, length sg = n) segs ->
  (length rest < n)%nat ->
  ∀ fuel, (length segs <= fuel)%nat ->
    segments_fuel fuel n (concat segs ++ rest) = segs ++ [rest].
Proof.
  intros Hall Hrest. induction Hall as [|sg segs Hsg _ IH]; intros fuel Hfuel.
  - simpl. destruct fuel as [|fuel]; simpl; [done|].
    by rewrite (proj2 (Nat.ltb_lt _ _) Hrest).
  - destruct fuel as [|fuel]; [simpl in Hfuel; lia|].
    simpl. rewrite <- app_assoc.
    replace (length (sg ++ concat segs ++ rest) <? n)%nat with false
      by (symmetry; apply Nat.ltb_ge; rewrite length_app; lia).
    rewrite take_app_length' by done. rewrite drop_app_length' by done.
    f_equal. apply IH. simpl in Hfuel. lia.
Qed.

Lemma segments_exact (n : nat) (segs : list Buffer) (rest : Buffer) :
  (0 < n)%nat ->
  Forall (λ sg, length sg = n) segs ->
  (length rest < n)%nat ->
  segments n (concat segs ++ rest) = segs ++ [rest].
Proof.
  intros Hn Hall Hrest. unfold segments.
  apply segments_fuel_exact; try done.
  rewrite length_app.
  assert (length segs <= length (concat segs))%nat; [|lia].
  clear Hrest. induction Hall as [|sg segs Hsg _ IH]; simpl; [lia|].
  rewrite length_app. lia.
Qed.

Lemma bounded_by_total (n : Z) (chunks : list Buffer) :
  Z.of_nat (length (concat chunks)) <= n ->
  Forall (λ ch, Z.of_nat (length ch) <= n) chunks.
Proof.
  induction chunks as [|ch chunks IH]; simpl; [done|].
  rewrite length_app. intros H. constructor; [lia|]. apply IH. lia.
Qed.

Section Transfer_1.

Variable sha256_hex : Buffer -> string.
Variable SIZE : Z.
Hypothesis SIZE_pos : 0 < SIZE.

Local Abbreviation chain_all := (chain_all sha256_hex).
Local Abbreviation on_data := (on_data sha256_hex SIZE).
Local Abbreviation on_close := (on_close sha256_hex).
Local Abbreviation close_loop := (close_loop sha256_hex).
Local Abbreviation handle := (handle sha256_hex SIZE).
Local Abbreviation storeFile := (storeFile sha256_hex SIZE).

Lemma close_loop_finishes (rest : list string) :
  rest ≠ [] -> ∀ st, finished (close_loop rest st) = true.
Proof.
  induction rest as [|l tl IH]; [done|]. intros _ st.
  destruct tl as [|l' tl'].
  - simpl. unfold finish. simpl. destruct (finished st) eqn:E; simpl; done.
  - change (close_loop (l :: l' :: tl') st)
      with (close_loop (l' :: tl')
              (set_hashMaker
                 (Hash_update createHash
                    (Buffer_from_string
                       (Hash_digest sha256_hex
                          (Hash_update (hashMaker st) (Buffer_from_string l))))) st)).
    by apply IH.
Qed.

(** The close handler on a run that has not called back yet. *)
Lemma on_close_result (st : state) :
  finished st = false -> calls st = [] ->
  hashArr (on_close st) = hashArr st ++ [sha256_hex (hashMaker st)]
  ∧ calls (on_close st)
    = [CbOk (chain_all (hashArr st ++ [sha256_hex (hashMaker st)]))]
  ∧ finished (on_close st) = true.
Proof.
  intros Hfin Hcalls. unfold RsTWs.on_close. cbv zeta. unfold Hash_digest.
  simpl hashArr at 1.
  destruct (hashArr st) as [|l0 tl] eqn:Harr; simpl.
  - unfold finish. simpl. rewrite Hfin. simpl. by rewrite Hcalls.
  - rewrite length_app. simpl.
    replace (length tl + 1 =? 0)%nat with false
      by (symmetry; apply Nat.eqb_neq; lia).
    match goal with
    | |- context [close_loop ?r ?s] =>
        destruct (TransferSpec.close_loop_chain sha256_hex r
                    ltac:(by destruct tl) l0 s eq_refl Hfin) as [Ha Hc];
        pose proof (close_loop_finishes r ltac:(by destruct tl) s) as Hf
    end.
    rewrite Ha, Hc, Hf. simpl. by rewrite Hcalls.
Qed.

(** A run to its end from a fresh object, by the segments of the content. *)
Lemma storeFile_by_segments (chunks : list Buffer) :
  Forall (λ ch, Z.of_nat (length ch) <= SIZE) chunks ->
  hashArr (storeFile new_Transfer_1 (read_events chunks))
  = map sha256_hex (segments (Z.to_nat SIZE) (concat chunks))
  ∧ calls (storeFile new_Transfer_1 (read_events chunks))
    = [CbOk (chain_all (map sha256_hex (segments (Z.to_nat SIZE) (concat chunks))))].
Proof.
  intros Hb.
  destruct (TransferSpec.storeFile_leaves sha256_hex SIZE SIZE_pos chunks Hb)
    as (segs & rest & Hall & Hrest & Hcat & Harr & Hcalls).
  assert (Hseg : segments (Z.to_nat SIZE) (concat chunks) = segs ++ [rest]).
  { rewrite <- Hcat. apply segments_exact; [lia| |lia].
    eapply Forall_impl; [exact Hall|]. simpl. intros sg Hsg. lia. }
  rewrite Hseg, map_app. simpl. done.
Qed.

End Transfer_1.

Section Transfer_1_events.

Variable sha256_hex : Buffer -> string.
Variable SIZE : Z.

Local Abbreviation chain_all := (chain_all sha256_hex).
Local Abbreviation on_data := (on_data sha256_hex SIZE).
Local Abbreviation on_close := (on_close sha256_hex).
Local Abbreviation close_loop := (close_loop sha256_hex).
Local Abbreviation handle := (handle sha256_hex SIZE).
Local Abbreviation storeFile := (storeFile sha256_hex SIZE).

Lemma close_loop_frozen (rest : list string) :
  ∀ st, finished st = true ->
    finished (close_loop rest st) = true
    ∧ calls (close_loop rest st) = calls st.
Proof.
  induction rest as [|l tl IH]; intros st Hf; [done|].
  destruct tl as [|l' tl'].
  - simpl. unfold finish. simpl. by rewrite Hf.
  - change (close_loop (l :: l' :: tl') st)
      with (close_loop (l' :: tl')
              (set_hashMaker
                 (Hash_update createHash
                    (Buffer_from_string
                       (Hash_digest sha256_hex
                          (Hash_update (hashMaker st) (Buffer_from_string l))))) st)).
    match goal with
    | |- context [close_loop _ ?s'] => destruct (IH s' Hf) as [-> ->]
    end. done.
Qed.

(** Once the callback has been called, no event calls it again. *)
Lemma handle_frozen (st : state) (e : rs_event) :
  finished st = true ->
  finished (handle st e) = true ∧ calls (handle st e) = calls st.
Proof.
  intros Hf. destruct e as [d| |err]; simpl.
  - unfold RsTWs.on_data. cbv zeta.
    by destruct (size st + Z.of_nat (length d) >=? SIZE).
  - unfold RsTWs.on_close. cbv zeta.
    destruct (length _ =? 1)%nat.
    + unfold finish. simpl. by rewrite Hf.
    + simpl. destruct (hashArr st ++ _) as [|l0 tl]; [done|].
      match goal with
      | |- context [close_loop ?r ?s'] =>
          destruct (close_loop_frozen r s' Hf) as [-> ->]
      end. done.
  - unfold error. by rewrite Hf.
Qed.

Lemma run_frozen (events : list rs_event) :
  ∀ st, finished st = true ->
    finished (fold_left handle events st) = true
    ∧ calls (fold_left handle events st) = calls st.
Proof.
  induction events as [|e events IH]; intros st Hf; simpl; [done|].
  destruct (handle_frozen st e Hf) as [Hf' Hc'].
  destruct (IH _ Hf') as [-> ->]. done.
Qed.

Lemma handle_called_once (st : state) (e : rs_event) :
  called_once st -> called_once (handle st e).
Proof.
  intros [[Hf Hc]|[Hf Hc]].
  - destruct e as [d| |err]; simpl.
    + left. unfold RsTWs.on_data. cbv zeta.
      by destruct (size st + Z.of_nat (length d) >=? SIZE).
    + right. destruct (on_close_result sha256_hex st Hf Hc) as (_ & -> & ->). done.
    + right. unfold error. rewrite Hf. simpl. by rewrite Hc.
  - right. destruct (handle_frozen st e Hf) as [-> ->]. done.
Qed.

(** Leaves already in [hashArr] stay in front of the leaves of a run. *)
Lemma data_after_old (old : list string) (chunks : list Buffer) :
  ∀ st1 st2,
    hashArr st1 = old ++ hashArr st2 -> size st1 = size st2 ->
    hashMaker st1 = hashMaker st2 ->
    let r1 := fold_left handle (map EvData chunks) st1 in
    let r2 := fold_left handle (map EvData chunks) st2 in
    hashArr r1 = old ++ hashArr r2 ∧ hashMaker r1 = hashMaker r2.
Proof.
  induction chunks as [|ch chunks IH]; intros st1 st2 Ha Hs Hh; simpl; [done|].
  apply IH; unfold RsTWs.on_data; cbv zeta; rewrite Hs, Hh;
    destruct (size st2 + Z.of_nat (length ch) >=? SIZE); simpl; try done.
  by rewrite Ha, app_assoc.
Qed.

End Transfer_1_events.

Section HashTransform.

Variable sha256_hex : Buffer -> string.

Lemma transform_fold (bufs : list Buffer) :
  ∀ t, let r := fold_left (λ t b, _transform b t) bufs t in
    hashStream r = hashStream t ++ concat bufs
    ∧ length_ r = length_ t + Z.of_nat (length (concat bufs))
    ∧ pushed r = pushed t ++ bufs
    ∧ digest r = digest t.
Proof.
  induction bufs as [|b bufs IH]; intros t; simpl.
  - rewrite !app_nil_r. repeat split. lia.
  - destruct (IH (_transform b t)) as (-> & -> & -> & ->). simpl.
    rewrite <- !app_assoc, length_app. repeat split. lia.
Qed.

End HashTransform.

(** X1. On a file read to its end in chunks no longer than a segment, the
    leaves that [storeFile] collects are the digests of the content cut at
    every segment size, in offset order, the last one being the digest of
    what remains after the last full segment; the callback is called once,
    with the left-to-right combination of these leaves. *)
Theorem storeFile_leaves_are_segment_digests
    (sha256_hex : Buffer -> string) (SIZE : Z) (chunks : list Buffer) :
  0 < SIZE ->
  Forall (λ ch, Z.of_nat (length ch) <= SIZE) chunks ->
  let st := storeFile sha256_hex SIZE new_Transfer_1 (read_events chunks) in
  hashArr st = map sha256_hex (segments (Z.to_nat SIZE) (concat chunks))
  ∧ calls st
    = [CbOk (chain_all sha256_hex
               (map sha256_hex (segments (Z.to_nat SIZE) (concat chunks))))].
Proof. intros Hpos Hb. by apply storeFile_by_segments. Qed.

Lemma storeFile_leaves_are_segment_digests_witness :
  hashArr (storeFile toy_hex 4 new_Transfer_1 (read_events chunks_two_exact))
  = ["0123#"; "4567#"; "#"]
  ∧ calls (storeFile toy_hex 4 new_Transfer_1 (read_events chunks_two_exact))
    = [CbOk "0123#4567####"].
Proof.
  refine (storeFile_leaves_are_segment_digests toy_hex 4 chunks_two_exact _ _).
  - lia.
  - repeat constructor; simpl; lia.
Defined.

(** X2. The leaves and the digest given to the callback depend on the
    content only, not on how the read stream cuts it into chunks, as long
    as no chunk is longer than a segment. *)
Theorem storeFile_independent_of_chunking
    (sha256_hex : Buffer -> string) (SIZE : Z) (chunks1 chunks2 : list Buffer) :
  0 < SIZE ->
  Forall (λ ch, Z.of_nat (length ch) <= SIZE) chunks1 ->
  Forall (λ ch, Z.of_nat (length ch) <= SIZE) chunks2 ->
  concat chunks1 = concat chunks2 ->
  hashArr (storeFile sha256_hex SIZE new_Transfer_1 (read_events chunks1))
  = hashArr (storeFile sha256_hex SIZE new_Transfer_1 (read_events chunks2))
  ∧ calls (storeFile sha256_hex SIZE new_Transfer_1 (read_events chunks1))
    = calls (storeFile sha256_hex SIZE new_Transfer_1 (read_events chunks2)).
Proof.
  intros Hpos H1 H2 Heq.
  destruct (storeFile_by_segments sha256_hex SIZE Hpos chunks1 H1) as [-> ->].
  destruct (storeFile_by_segments sha256_hex SIZE Hpos chunks2 H2) as [-> ->].
  by rewrite Heq.
Qed.

Lemma storeFile_independent_of_chunking_witness :
  hashArr (storeFile toy_hex 4 new_Transfer_1 (read_events chunks_two_and_a_half))
  = hashArr (storeFile toy_hex 4 new_Transfer_1
               (read_events [bytes "0"; bytes "1234"; bytes "5678"; bytes "9"]))
  ∧ calls (storeFile toy_hex 4 new_Transfer_1 (read_events chunks_two_and_a_half))
    = calls (storeFile toy_hex 4 new_Transfer_1
               (read_events [bytes "0"; bytes "1234"; bytes "5678"; bytes "9"])).
Proof.
  refine (storeFile_independent_of_chunking toy_hex 4 chunks_two_and_a_half
            [bytes "0"; bytes "1234"; bytes "5678"; bytes "9"] _ _ _ _).
  - lia.
  - repeat constructor; simpl; lia.
  - repeat constructor; simpl; lia.
  - reflexivity.
Defined.

(** X3. A file shorter than a segment, however it is read (an empty file
    with no data event at all included), gives one leaf, the digest of its
    whole content, and the callback gets that digest. *)
Theorem storeFile_small_file
    (sha256_hex : Buffer -> string) (SIZE : Z) (chunks : list Buffer) :
  Z.of_nat (length (concat chunks)) < SIZE ->
  let st := storeFile sha256_hex SIZE new_Transfer_1 (read_events chunks) in
  hashArr st = [sha256_hex (concat chunks)]
  ∧ calls st = [CbOk (sha256_hex (concat chunks))].
Proof.
  intros Hlt.
  assert (Hpos : 0 < SIZE) by lia.
  assert (Hb : Forall (λ ch, Z.of_nat (length ch) <= SIZE) chunks)
    by (apply bounded_by_total; lia).
  destruct (storeFile_by_segments sha256_hex SIZE Hpos chunks Hb) as [Ha Hc].
  assert (Hseg : segments (Z.to_nat SIZE) (concat chunks) = [concat chunks]).
  { apply (segments_exact (Z.to_nat SIZE) [] (concat chunks)); [lia|done|lia]. }
  cbv zeta. rewrite Ha, Hc, Hseg. done.
Qed.

Lemma storeFile_small_file_witness :
  hashArr (storeFile toy_hex 4 new_Transfer_1 (read_events [bytes "01"; bytes "2"]))
  = ["012#"]
  ∧ calls (storeFile toy_hex 4 new_Transfer_1 (read_events [bytes "01"; bytes "2"]))
    = [CbOk "012#"].
Proof.
  refine (storeFile_small_file toy_hex 4 [bytes "01"; bytes "2"] _).
  simpl. lia.
Defined.

(** X4. The number of leaves is the length of the content divided by the
    segment size, rounded down, plus one. *)
Theorem storeFile_leaf_count
    (sha256_hex : Buffer -> string) (SIZE : Z) (chunks : list Buffer) :
  0 < SIZE ->
  Forall (λ ch, Z.of_nat (length ch) <= SIZE) chunks ->
  Z.of_nat (length (hashArr (storeFile sha256_hex SIZE new_Transfer_1
                               (read_events chunks))))
  = Z.of_nat (length (concat chunks)) / SIZE + 1.
Proof.
  intros Hpos Hb.
  destruct (TransferSpec.storeFile_leaves sha256_hex SIZE Hpos chunks Hb)
    as (segs & rest & Hall & Hrest & Hcat & -> & _).
  pose proof (TransferSpec.length_concat_segments SIZE segs Hall) as Hsegs.
  assert (Hq : Z.of_nat (length segs) = Z.of_nat (length (concat chunks)) / SIZE).
  { apply (Z.div_unique _ _ _ (Z.of_nat (length rest))); [lia|].
    rewrite <- Hcat, length_app. lia. }
  rewrite length_app, length_map. simpl. lia.
Qed.

Lemma storeFile_leaf_count_witness :
  Z.of_nat (length (hashArr (storeFile toy_hex 4 new_Transfer_1
                               (read_events chunks_two_and_a_half))))
  = 3.
Proof.
  refine (storeFile_leaf_count toy_hex 4 chunks_two_and_a_half _ _).
  - lia.
  - repeat constructor; simpl; lia.
Defined.

(** X5. Whatever events the read stream delivers, in whatever order, and
    whatever [hashArr] held before, the callback of [storeFile] is called
    at most once, and [finished] is set exactly when it has been called. *)
Theorem storeFile_calls_back_at_most_once
    (sha256_hex : Buffer -> string) (SIZE : Z)
    (this_hashArr : list string) (events : list rs_event) :
  called_once (storeFile sha256_hex SIZE this_hashArr events).
Proof.
  unfold storeFile.
  assert (H0 : called_once (mkState this_hashArr 0 createHash false []))
    by (by left).
  revert H0. generalize (mkState this_hashArr 0 createHash false []).
  induction events as [|e events IH]; intros st Hst; simpl; [done|].
  apply IH. by apply handle_called_once.
Qed.

(** X6. When the read stream fails before it closes, the callback gets the
    error and nothing else, whatever events follow: the close that comes
    after the error combines the leaves but reports nothing. *)
Theorem storeFile_error_wins
    (sha256_hex : Buffer -> string) (SIZE : Z) (this_hashArr : list string)
    (chunks : list Buffer) (e : string) (later : list rs_event) :
  calls (storeFile sha256_hex SIZE this_hashArr
           (map EvData chunks ++ EvError e :: later))
  = [CbErr e].
Proof.
  unfold storeFile. rewrite fold_left_app. simpl.
  set (st0 := mkState this_hashArr 0 createHash false []).
  destruct (TransferSpec.data_keeps_calls sha256_hex SIZE chunks st0) as [Hf Hc].
  set (st := fold_left _ (map EvData chunks) st0) in *.
  assert (He : finished (error e st) = true ∧ calls (error e st) = [CbErr e]).
  { unfold error. rewrite Hf. simpl. by rewrite Hc. }
  destruct He as [Hf' Hc'].
  destruct (run_frozen sha256_hex SIZE later _ Hf') as [_ ->]. done.
Qed.

(** X7. [hashArr] belongs to the object, not to the call: a run on an object
    that already holds leaves appends its own leaves to them, and the
    digest it reports combines the old leaves with the new. *)
Theorem storeFile_reuse_accumulates
    (sha256_hex : Buffer -> string) (SIZE : Z)
    (old : list string) (chunks : list Buffer) :
  let fresh := storeFile sha256_hex SIZE new_Transfer_1 (read_events chunks) in
  let again := storeFile sha256_hex SIZE old (read_events chunks) in
  hashArr again = old ++ hashArr fresh
  ∧ calls again = [CbOk (chain_all sha256_hex (old ++ hashArr fresh))]
  ∧ calls fresh = [CbOk (chain_all sha256_hex (hashArr fresh))].
Proof.
  cbv zeta. unfold storeFile, read_events. rewrite !fold_left_app. simpl.
  set (s1 := mkState old 0 createHash false []).
  set (s2 := mkState new_Transfer_1 0 createHash false []).
  assert (H0 : hashArr s1 = old ++ hashArr s2) by (simpl; by rewrite app_nil_r).
  destruct (data_after_old sha256_hex SIZE old chunks s1 s2 H0 eq_refl eq_refl)
    as [Ha Hh].
  destruct (TransferSpec.data_keeps_calls sha256_hex SIZE chunks s1) as [Hf1 Hc1].
  destruct (TransferSpec.data_keeps_calls sha256_hex SIZE chunks s2) as [Hf2 Hc2].
  destruct (on_close_result sha256_hex _ Hf1 Hc1) as (-> & -> & _).
  destruct (on_close_result sha256_hex _ Hf2 Hc2) as (-> & -> & _).
  rewrite Ha, Hh, <- app_assoc. done.
Qed.

(** X8. A HashTransform passes on the buffers it is given, unchanged and in
    order; after the flush its [length] is the number of bytes that went
    through and its [digest] is the digest of their concatenation, so it
    does not depend on how the bytes were cut into buffers. *)
Theorem HashTransform_passes_through_and_digests
    (sha256_hex : Buffer -> string) (bufs : list Buffer) :
  let t := transform_all sha256_hex bufs in
  pushed t = bufs
  ∧ length_ t = Z.of_nat (length (concat bufs))
  ∧ digest t = Some (sha256_hex (concat bufs)).
Proof.
  cbv zeta. unfold transform_all.
  destruct (transform_fold bufs new_HashTransform) as (Hs & Hl & Hp & _).
  simpl in *. by rewrite Hs, Hl, Hp.
Qed.

(** X9. Class Transfer (method_1) never reports a digest: its close handler
    throws at [hashMaker.getHash], which HashTransform does not have, and
    so does its data handler at the first segment boundary, before anything
    is pushed. Whatever the events, [hashArr] stays as it was and the
    callback is called at most once, with an error of the read stream. *)
Theorem Transfer_never_reports_a_digest
    (arr : list string) (events : list t_event) :
  let st := t_storeFile arr events in
  t_hashArr st = arr
  ∧ forallb is_CbErr (t_calls st) = true
  ∧ (length (t_calls st) <= 1)%nat
  ∧ snd (t_handle st TClose) = getHash_missing.
Proof.
  cbv zeta. unfold t_storeFile.
  assert (H0 : t_hashArr (mkTransfer arr [] false []) = arr
               ∧ forallb is_CbErr (t_calls (mkTransfer arr [] false [])) = true
               ∧ (if t_finished (mkTransfer arr [] false [])
                  then length (t_calls (mkTransfer arr [] false [])) = 1%nat
                  else t_calls (mkTransfer arr [] false []) = [])) by done.
  revert H0. generalize (mkTransfer arr [] false []).
  induction events as [|e events IH]; intros st (Ha & Hc & Hf); simpl.
  - repeat split; try done. destruct (t_finished st); [lia|rewrite Hf; simpl; lia].
  - apply IH. destruct e as [seen d| |err]; simpl.
    + by destruct (seen + Z.of_nat (length d) >=? SIZE_1G).
    + done.
    + unfold t_error. destruct (t_finished st) eqn:E; simpl; [by rewrite E|].
      rewrite Hf. done.
Qed.

End TransferMore.


(** * More on the File node (file.js) *)

Module FileMore.
Import JS Forest ForestRest FileSpec.

(** ** Helpers *)

Lemma update_cases (x : xstat) (s : Sys) :
  fst (File_update x s) = s
  ∨ ((typeof (x_magic x) = "string" ∧ x_uuid x = uuid (file s))
     ∧ snd (File_update x s) = Returned
     ∧ fst (File_update x s) = update_body x s).
Proof.
  destruct (classic_accept x s) as [Hacc|Hrej].
  - rewrite update_accepted by done.
    destruct (String.eqb (name (file s)) (x_name x) && _); simpl; [by left|].
    by right.
  - left. by destruct (update_rejects x s Hrej) as [msg ->].
Qed.

Lemma update_body_same_name (x : xstat) (s : Sys) :
  name (file s) = x_name x ->
  jobs (update_body x s) = jobs s
  ∧ worker (file (update_body x s)) = worker (file s).
Proof.
  intros Hn. unfold update_body. cbv zeta.
  rewrite Hn, String.eqb_refl. simpl.
  set (s2 := if negb (strict_eq (hash (file s)) (x_hash x)) then _ else s).
  assert (Hs2 : jobs s2 = jobs s ∧ worker (file s2) = worker (file s)).
  { unfold s2. destruct (strict_eq (hash (file s)) (x_hash x)); simpl; [done|].
    destruct (unindex_fields s) as (Hf & Hjb & _).
    destruct (index_fields (upd_file (set_hash (x_hash x)) (File_unindex s)))
      as (Hf' & Hjb' & _).
    rewrite Hf', Hjb'. simpl. by rewrite Hf, Hjb. }
  clearbody s2. destruct Hs2 as [Hj Hw].
  destruct (strict_eq (hash (file s2)) JUndefined); simpl; by rewrite Hj, Hw.
Qed.

Lemma index_other (s : Sys) (d : jsval) (o' : positive) :
  o' ≠ self s ->
  indexed (idx (File_index s)) d o' ↔ indexed (idx s) d o'.
Proof.
  intros Hne. unfold File_index. destruct (truthy _); [|done]. simpl.
  rewrite index_add_elem. naive_solver.
Qed.

Lemma unindex_other (s : Sys) (d : jsval) (o' : positive) :
  o' ≠ self s ->
  indexed (idx (File_unindex s)) d o' ↔ indexed (idx s) d o'.
Proof.
  intros Hne. unfold File_unindex. destruct (truthy _); [|done]. simpl.
  rewrite index_remove_elem. naive_solver.
Qed.

Lemma update_body_idx_other (x : xstat) (s : Sys) (d : jsval) (o' : positive) :
  o' ≠ self s ->
  indexed (idx (update_body x s)) d o' ↔ indexed (idx s) d o'.
Proof.
  intros Hne. unfold update_body. cbv zeta.
  set (s1 := if negb (String.eqb (name (file s)) (x_name x)) then _ else s).
  assert (Hs1 : idx s1 = idx s ∧ self s1 = self s).
  { unfold s1. destruct (negb _); [|done].
    by destruct (rename_part_frame (x_name x) s) as (? & ? & _). }
  clearbody s1. destruct Hs1 as [Hi Hs].
  set (s2 := if negb (strict_eq (hash (file s1)) (x_hash x)) then _ else s1).
  assert (Hs2 : indexed (idx s2) d o' ↔ indexed (idx s) d o').
  { unfold s2. destruct (negb _); [|by rewrite Hi].
    destruct (unindex_fields s1) as (_ & _ & Hsu & _).
    rewrite index_other by (simpl; by rewrite Hsu, Hs).
    simpl. rewrite unindex_other by (by rewrite Hs). by rewrite Hi. }
  clearbody s2. by destruct (strict_eq (hash (file s2)) JUndefined).
Qed.

(** The fields of the File that nothing but the named methods write. *)
Lemma exec_frame (o : op) (s s' : Sys) (out : outcome) :
  exec o s = Some (s', out) ->
  uuid (file s') = uuid (file s)
  ∧ magic (file s') = magic (file s)
  ∧ self s' = self s
  ∧ match o with
    | Pause | Resume => True
    | _ => paused (file s') = paused (file s)
    end.
Proof.
  destruct o as [p| | | |x|j code|j x|o' d|o' d]; simpl.
  - intros [= <- _]. unfold File_attach, Node_attach.
    destruct (startWorker_fields (File_index (upd_file (set_parent (Some p)) s)))
      as (_ & -> & _ & -> & _ & _ & -> & _ & -> & _).
    destruct (index_fields (upd_file (set_parent (Some p)) s)) as (-> & _ & -> & _).
    done.
  - intros [= <- _]. unfold File_detach, Node_detach. simpl.
    destruct (unindex_fields (File_stopWorker s)) as (-> & _ & -> & _).
    destruct (stopWorker_fields s) as (-> & _ & -> & _). done.
  - unfold File_pause. destruct (paused (file s)); intros [= <- _]; [done|].
    simpl. destruct (stopWorker_fields s) as (-> & _ & -> & _). done.
  - intros [= <- _]. unfold File_resume.
    destruct (startWorker_fields (upd_file (set_paused false) s))
      as (_ & -> & _ & -> & _ & _ & _ & _ & -> & _). done.
  - intros E. assert (s' = fst (File_update x s)) as ->.
    { by destruct (File_update x s); injection E as <- _. }
    destruct (update_cases x s) as [->|(_ & _ & ->)]; [done|].
    by destruct (update_body_fields x s) as (_ & -> & -> & -> & _ & _ & -> & _).
  - destruct (_ || _); [|done]. intros [= <- _].
    destruct (end_job_fields j s) as (Hf & _ & Hs & _).
    unfold on_worker_error. cbv zeta.
    destruct (String.eqb code "ENOTDIR" || String.eqb code "ENOENT");
      [simpl; by rewrite Hf, Hs|].
    destruct (String.eqb code "EABORT"); [simpl; by rewrite Hf, Hs|].
    destruct (startWorker_fields (upd_file (set_worker None) (end_job j s)))
      as (_ & -> & _ & -> & _ & _ & -> & _ & -> & _). simpl. by rewrite Hf, Hs.
  - destruct (job_has_status s j Running); [|done]. intros E.
    unfold on_worker_finish in E.
    set (s0 := upd_file (set_worker None) (end_job j s)) in *.
    assert (s' = fst (File_update x s0)) as ->.
    { by destruct (File_update x s0); injection E as <- _. }
    destruct (end_job_fields j s) as (Hf & _ & Hs & _).
    assert (H0 : uuid (file s0) = uuid (file s) ∧ magic (file s0) = magic (file s)
                 ∧ self s0 = self s ∧ paused (file s0) = paused (file s)).
    { unfold s0. simpl. by rewrite Hf, Hs. }
    destruct H0 as (<- & <- & <- & <-).
    destruct (update_cases x s0) as [->|(_ & _ & ->)]; [done|].
    by destruct (update_body_fields x s0) as (_ & -> & -> & -> & _ & _ & -> & _).
  - destruct (bool_decide _); [done|]. by intros [= <- _].
  - destruct (bool_decide _); [done|]. by intros [= <- _].
Qed.

(** ** When a job is started *)

Lemma may_start_true (f : File) :
  may_start f = true ->
  truthy (hash f) = false ∧ paused f = false ∧ hashFail f < 5.
Proof.
  unfold may_start. intros H.
  apply andb_true_iff in H as [H Hc]. apply andb_true_iff in H as [Hh Hp].
  apply negb_true_iff in Hh, Hp. apply Z.ltb_lt in Hc. done.
Qed.

Lemma startWorker_job_rule (s0 : Sys) :
  length (jobs (File_startWorker s0)) = length (jobs s0)
  ∨ (length (jobs (File_startWorker s0)) = S (length (jobs s0))
     ∧ may_start (file s0) = true
     ∧ worker (file (File_startWorker s0)) = Some (length (jobs s0))
     ∧ jobs (File_startWorker s0) !! length (jobs s0)
       = Some (mkJob (abspath (file (File_startWorker s0)))
                     (uuid (file (File_startWorker s0))) Running)).
Proof.
  unfold File_startWorker. cbv zeta. fold (may_start (file s0)).
  destruct (may_start (file s0)); [right|by left]. simpl.
  rewrite length_app. simpl. split; [lia|]. split; [done|]. split; [done|].
  rewrite lookup_app_r by lia. rewrite Nat.sub_diag. simpl.
  by destruct (file s0).
Qed.

Lemma update_job_rule (x : xstat) (s : Sys) :
  length (jobs (fst (File_update x s))) = length (jobs s)
  ∨ (length (jobs (fst (File_update x s))) = S (length (jobs s))
     ∧ may_start (file s) = true
     ∧ worker (file (fst (File_update x s))) = Some (length (jobs s))
     ∧ jobs (fst (File_update x s)) !! length (jobs s)
       = Some (mkJob (abspath (file (fst (File_update x s))))
                     (uuid (file (fst (File_update x s)))) Running)).
Proof.
  destruct (update_cases x s) as [->|(_ & _ & ->)]; [by left|].
  destruct (String.eqb_spec (name (file s)) (x_name x)) as [Hn|Hn].
  - left. by destruct (update_body_same_name x s Hn) as [-> _].
  - destruct (update_body_jobs x s Hn) as [Hj Hw].
    destruct (stopWorker_fields s) as (_ & _ & _ & _ & Hlen).
    destruct (update_body_fields x s) as (Hp & Hu & _ & _ & Hname & _).
    rewrite Hj, Hw, length_app, Hlen.
    destruct (may_start (file s)); simpl; [right|left; lia].
    split; [lia|]. split; [done|]. split; [done|].
    rewrite lookup_app_r by lia. rewrite Hlen, Nat.sub_diag. simpl.
    unfold abspath. rewrite Hp, Hname, Hu. done.
Qed.

(** What a step does to the list of jobs. *)
Lemma exec_job_rule (o : op) (s s' : Sys) (out : outcome) :
  exec o s = Some (s', out) ->
  length (jobs s') = length (jobs s)
  ∨ (length (jobs s') = S (length (jobs s))
     ∧ (truthy (hash (file s)) = false
        ∧ hashFail (file s) < 5
        ∧ (paused (file s) = false ∨ o = Resume))
     ∧ worker (file s') = Some (length (jobs s))
     ∧ jobs s' !! length (jobs s)
       = Some (mkJob (abspath (file s')) (uuid (file s')) Running)).
Proof.
  destruct o as [p| | | |x|j code|j x|o' d|o' d]; simpl.
  - intros [= <- _]. unfold File_attach, Node_attach.
    set (s0 := File_index (upd_file (set_parent (Some p)) s)).
    destruct (index_fields (upd_file (set_parent (Some p)) s)) as (Hf & Hj & _).
    fold s0 in Hf, Hj. simpl in Hf, Hj.
    destruct (startWorker_job_rule s0) as [Hl|(Hl & Hg & Hw & Hk)];
      rewrite Hj in *; [by left|right].
    rewrite Hf in Hg. apply may_start_true in Hg as (? & ? & ?).
    repeat split; try done. by left.
  - intros [= <- _]. unfold File_detach, Node_detach. simpl. left.
    destruct (unindex_fields (File_stopWorker s)) as (_ & -> & _).
    by destruct (stopWorker_fields s) as (_ & _ & _ & _ & ->).
  - unfold File_pause. destruct (paused (file s)); intros [= <- _]; [by left|].
    simpl. left. by destruct (stopWorker_fields s) as (_ & _ & _ & _ & ->).
  - intros [= <- _]. unfold File_resume.
    destruct (startWorker_job_rule (upd_file (set_paused false) s))
      as [Hl|(Hl & Hg & Hw & Hk)]; simpl in *; [by left|right].
    apply may_start_true in Hg as (? & ? & ?). simpl in *.
    repeat split; try done. by right.
  - intros E. assert (s' = fst (File_update x s)) as ->.
    { by destruct (File_update x s); injection E as <- _. }
    destruct (update_job_rule x s) as [Hl|(Hl & Hg & Hw & Hk)]; [by left|right].
    apply may_start_true in Hg as (? & ? & ?). repeat split; try done. by left.
  - destruct (_ || _); [|done]. intros [= <- _].
    destruct (end_job_fields j s) as (Hf & _ & _ & _ & Hlen).
    unfold on_worker_error. cbv zeta.
    destruct (String.eqb code "ENOTDIR" || String.eqb code "ENOENT");
      [left; simpl; by rewrite Hlen|].
    destruct (String.eqb code "EABORT"); [left; simpl; by rewrite Hlen|].
    destruct (startWorker_job_rule (upd_file (set_worker None) (end_job j s)))
      as [Hl|(Hl & Hg & Hw & Hk)]; simpl in *; rewrite Hlen in *; [by left|right].
    rewrite Hf in Hg. apply may_start_true in Hg as (? & ? & ?). simpl in *.
    repeat split; try done. by left.
  - destruct (job_has_status s j Running); [|done]. intros E.
    unfold on_worker_finish in E.
    set (s0 := upd_file (set_worker None) (end_job j s)) in *.
    assert (s' = fst (File_update x s0)) as ->.
    { by destruct (File_update x s0); injection E as <- _. }
    destruct (end_job_fields j s) as (Hf & _ & _ & _ & Hlen).
    assert (Hl0 : length (jobs s0) = length (jobs s)) by exact Hlen.
    destruct (update_job_rule x s0) as [Hl|(Hl & Hg & Hw & Hk)];
      rewrite Hl0 in *; [by left|right].
    unfold s0 in Hg. simpl in Hg. rewrite Hf in Hg.
    apply may_start_true in Hg as (? & ? & ?). simpl in *.
    repeat split; try done. by left.
  - destruct (bool_decide _); [done|]. intros [= <- _]. by left.
  - destruct (bool_decide _); [done|]. intros [= <- _]. by left.
Qed.

(** ** Jobs that have not ended *)

Lemma unfinished_frame (s s' : Sys) (i : nat) :
  jobs s' = jobs s -> unfinished s' i ↔ unfinished s i.
Proof. unfold unfinished. by intros ->. Qed.

Lemma stopWorker_unfinished (s : Sys) (i : nat) :
  unfinished (File_stopWorker s) i ↔ unfinished s i.
Proof.
  unfold File_stopWorker, Worker_abort.
  destruct (worker (file s)) as [j|]; [|done].
  destruct (jobs s !! j) as [job|] eqn:Ej; [|done].
  destruct (status job) eqn:Es; try done.
  unfold unfinished. simpl. destruct (decide (i = j)) as [->|Hne].
  - rewrite list_lookup_insert_eq by (by eapply lookup_lt_Some).
    split; intros _.
    + exists job. split; [done|]. by rewrite Es.
    + by eexists.
  - by rewrite list_lookup_insert_ne.
Qed.

Lemma end_job_unfinished (s : Sys) (j i : nat) :
  unfinished (end_job j s) i ↔ unfinished s i ∧ i ≠ j.
Proof.
  unfold end_job, unfinished.
  destruct (jobs s !! j) as [job|] eqn:Ej; simpl.
  - destruct (decide (i = j)) as [->|Hne].
    + rewrite list_lookup_insert_eq by (by eapply lookup_lt_Some).
      split; [intros (? & [= <-] & ?); done|intros [_ ?]; done].
    + rewrite list_lookup_insert_ne by done. naive_solver.
  - split; [|naive_solver]. intros (job & Hl & Hs). split; [by exists job|].
    intros ->. congruence.
Qed.

Lemma end_job_finished (s : Sys) (j : nat) (st : job_status) :
  job_has_status s j st = true ->
  job_has_status (end_job j s) j Finished = true.
Proof.
  unfold job_has_status, end_job.
  destruct (jobs s !! j) as [job|] eqn:Ej; [|done]. intros _. simpl.
  rewrite list_lookup_insert_eq by (by eapply lookup_lt_Some). done.
Qed.

Lemma status_unfinished (s : Sys) (j : nat) (st : job_status) :
  st ≠ Finished -> job_has_status s j st = true -> unfinished s j.
Proof.
  unfold job_has_status, unfinished. intros Hst.
  destruct (jobs s !! j) as [job|]; [|done].
  intros <-%bool_decide_eq_true. by exists job.
Qed.

(** A state with no job left, then maybe one more job with its handle. *)
Lemma settled_extend (s s' : Sys) (b : bool) (J : Job) :
  (∀ i, ¬ unfinished s i) ->
  jobs s' = jobs s ++ (if b then [J] else []) ->
  worker (file s') = (if b then Some (length (jobs s)) else worker (file s)) ->
  settled s'.
Proof.
  intros Hnone Hj Hw i (job & Hl & Hs). rewrite Hj in Hl. rewrite Hw.
  destruct b.
  - destruct (decide (i < length (jobs s))%nat) as [Hlt|Hge].
    + rewrite lookup_app_l in Hl by done. destruct (Hnone i). by exists job.
    + destruct (decide (i = length (jobs s))) as [->|Hne]; [done|].
      rewrite lookup_app_r in Hl by lia.
      destruct (i - length (jobs s))%nat as [|k] eqn:Ek; [lia|]. done.
  - rewrite app_nil_r in Hl. destruct (Hnone i). by exists job.
Qed.

Lemma settled_frame (s s' : Sys) :
  jobs s' = jobs s -> worker (file s') = worker (file s) ->
  settled s -> settled s'.
Proof.
  intros Hj Hw Hs i Hi. rewrite Hw. apply Hs. by apply (unfinished_frame s s').
Qed.

Lemma startWorker_settled (s0 : Sys) :
  (∀ i, ¬ unfinished s0 i) -> settled (File_startWorker s0).
Proof.
  intros Hnone. destruct (startWorker_jobs s0) as [Hj Hw].
  by eapply (settled_extend s0).
Qed.

Lemma update_settled_idle (x : xstat) (s : Sys) :
  (∀ i, ¬ unfinished s i) -> settled (fst (File_update x s)).
Proof.
  intros Hnone.
  assert (Hs : settled s) by (intros i Hi; by destruct (Hnone i)).
  destruct (update_cases x s) as [->|(_ & _ & ->)]; [done|].
  destruct (String.eqb_spec (name (file s)) (x_name x)) as [Hn|Hn].
  - destruct (update_body_same_name x s Hn) as [Hj Hw].
    by apply (settled_frame s).
  - destruct (update_body_jobs x s Hn) as [Hj Hw].
    assert (Hst : jobs (File_stopWorker s) = jobs s).
    { unfold File_stopWorker, Worker_abort.
      destruct (worker (file s)) as [j|]; [|done].
      destruct (jobs s !! j) as [job|] eqn:Ej; [|done].
      destruct (status job) eqn:Es; try done.
      destruct (Hnone j). exists job. split; [done|]. by rewrite Es. }
    rewrite Hst in Hj. by eapply (settled_extend s).
Qed.

Lemma settled_unique (s : Sys) (i k : nat) :
  settled s -> unfinished s i -> unfinished s k -> i = k.
Proof. intros Hs Hi Hk. pose proof (Hs i Hi). pose proof (Hs k Hk). congruence. Qed.

(** The step of the discipline. *)
Lemma exec_settled (o : op) (s s' : Sys) (out : outcome) :
  settled s -> well_timed o s -> exec o s = Some (s', out) -> settled s'.
Proof.
  intros Hs Hwt.
  assert (Hidle : worker (file s) = None -> ∀ i, ¬ unfinished s i).
  { intros Hw i Hi. pose proof (Hs i Hi). congruence. }
  destruct o as [p| | | |x|j code|j x|o' d|o' d]; simpl in *.
  - intros [= <- _]. unfold File_attach, Node_attach.
    apply startWorker_settled. intros i Hi. apply (Hidle Hwt i).
    eapply unfinished_frame; [|exact Hi].
    by destruct (index_fields (upd_file (set_parent (Some p)) s)) as (_ & -> & _).
  - intros [= <- _]. unfold File_detach, Node_detach. intros i Hi. simpl.
    destruct (unindex_fields (File_stopWorker s)) as (Hf & Hj & _).
    destruct (stopWorker_fields s) as (Hf' & _).
    rewrite Hf, Hf'. apply Hs. apply stopWorker_unfinished.
    eapply unfinished_frame; [|exact Hi]. done.
  - unfold File_pause. destruct (paused (file s)); intros [= <- _]; [done|].
    intros i Hi. simpl. destruct (stopWorker_fields s) as (Hf' & _).
    rewrite Hf'. apply Hs. apply stopWorker_unfinished.
    eapply unfinished_frame; [|exact Hi]. done.
  - intros [= <- _]. unfold File_resume. apply startWorker_settled.
    intros i Hi. by apply (Hidle Hwt i).
  - intros E. assert (s' = fst (File_update x s)) as ->.
    { by destruct (File_update x s); injection E as <- _. }
    destruct Hwt as [Hn|Hw]; [|by apply update_settled_idle, Hidle].
    destruct (update_cases x s) as [->|(_ & _ & ->)]; [done|].
    destruct (update_body_same_name x s Hn) as [Hj Hw].
    by apply (settled_frame s).
  - destruct (_ || _) eqn:En; [|done]. intros [= <- _].
    assert (Hj : worker (file s) = Some j).
    { apply Hs. apply orb_true_iff in En as [En|En];
        apply andb_true_iff in En as [En _];
        by eapply status_unfinished; [|exact En]. }
    assert (Hnone : ∀ i, ¬ unfinished (upd_file (set_worker None) (end_job j s)) i).
    { intros i Hi. apply (unfinished_frame (end_job j s)) in Hi; [|done].
      apply end_job_unfinished in Hi as [Hi Hne]. pose proof (Hs i Hi). congruence. }
    unfold on_worker_error. cbv zeta.
    destruct (String.eqb code "ENOTDIR" || String.eqb code "ENOENT").
    { intros i Hi. by destruct (Hnone i). }
    destruct (String.eqb code "EABORT").
    { intros i Hi. by destruct (Hnone i). }
    by apply startWorker_settled.
  - destruct (job_has_status s j Running) eqn:En; [|done]. intros E.
    unfold on_worker_finish in E.
    set (s0 := upd_file (set_worker None) (end_job j s)) in *.
    assert (s' = fst (File_update x s0)) as ->.
    { by destruct (File_update x s0); injection E as <- _. }
    apply update_settled_idle. intros i Hi.
    apply (unfinished_frame (end_job j s)) in Hi; [|done].
    apply end_job_unfinished in Hi as [Hi Hne].
    assert (Hj : worker (file s) = Some j).
    { apply Hs. by eapply status_unfinished; [|exact En]. }
    pose proof (Hs i Hi). congruence.
  - destruct (bool_decide _); [done|]. by intros [= <- _].
  - destruct (bool_decide _); [done|]. by intros [= <- _].
Qed.

Lemma update_body_indexes (x : xstat) (s : Sys) :
  truthy (x_hash x) = true -> hash (file s) ≠ x_hash x ->
  indexed (idx (update_body x s)) (x_hash x) (self s).
Proof.
  intros Ht Hne. unfold update_body. cbv zeta.
  set (s1 := if negb (String.eqb (name (file s)) (x_name x)) then _ else s).
  assert (Hs1 : hash (file s1) = hash (file s) ∧ self s1 = self s).
  { unfold s1. destruct (negb _); [|done].
    by destruct (rename_part_frame (x_name x) s) as (_ & ? & ? & _). }
  clearbody s1. destruct Hs1 as [Hh Hs].
  assert (Hse : strict_eq (hash (file s1)) (x_hash x) = false).
  { unfold strict_eq. rewrite Hh. by apply bool_decide_eq_false_2. }
  rewrite Hse. simpl.
  destruct (unindex_fields s1) as (_ & _ & Hsu & _).
  set (s2 := File_index _).
  assert (Hs2 : indexed (idx s2) (x_hash x) (self s)).
  { unfold s2, File_index. simpl. rewrite Ht. simpl.
    apply index_add_elem. left. by rewrite Hsu, Hs. }
  clearbody s2. by destruct (strict_eq (hash (file s2)) JUndefined).
Qed.

Lemma detach_unindexed (s : Sys) :
  index_inv s -> unindexed (File_detach s).
Proof.
  intros [H1 _]. unfold File_detach, Node_detach.
  destruct (stopWorker_fields s) as (Hf & Hi & Hs & _).
  assert (Hin : ∀ d, indexed (idx (File_stopWorker s)) d (self (File_stopWorker s))
                     -> hash (file (File_stopWorker s)) = d ∧ truthy d = true).
  { by rewrite Hf, Hi, Hs. }
  exact (unindex_clears _ Hin).
Qed.

(** X10. Nothing that happens to a File, neither a method call nor a job
    event, changes its uuid or its magic. *)
Theorem File_uuid_and_magic_never_change (o : op) (s s' : Sys) (out : outcome) :
  exec o s = Some (s', out) ->
  uuid (file s') = uuid (file s) ∧ magic (file s') = magic (file s).
Proof. intros E. by destruct (exec_frame o s s' out E) as (? & ? & _). Qed.

Lemma File_uuid_and_magic_never_change_witness :
  uuid (file (fst (on_worker_finish
                     (mkXstat "u-1" "b.jpg" (JString "PNG") (JString "abc"))
                     (end_job 0 hashless_sys)))) = "u-1"
  ∧ magic (file (fst (on_worker_finish
                        (mkXstat "u-1" "b.jpg" (JString "PNG") (JString "abc"))
                        (end_job 0 hashless_sys)))) = JString "JPEG".
Proof.
  exact (File_uuid_and_magic_never_change
           (WorkerFinish 0 (mkXstat "u-1" "b.jpg" (JString "PNG") (JString "abc")))
           hashless_sys _ _ eq_refl).
Defined.

(** X11. A step never removes a job and starts at most one. It starts one
    only if, before the step, the File has no digest and fewer than 5
    failures and is not paused (or the step is [resume()]); the File then
    holds the handle of the new job, which runs against the path the File
    has after the step, under the File's uuid. *)
Theorem job_started_only_under_guard (o : op) (s s' : Sys) (out : outcome) :
  exec o s = Some (s', out) ->
  (length (jobs s) <= length (jobs s') <= S (length (jobs s)))%nat
  ∧ (length (jobs s') ≠ length (jobs s) ->
     truthy (hash (file s)) = false
     ∧ hashFail (file s) < 5
     ∧ (paused (file s) = false ∨ o = Resume)
     ∧ worker (file s') = Some (length (jobs s))
     ∧ jobs s' !! length (jobs s)
       = Some (mkJob (abspath (file s')) (uuid (file s')) Running)).
Proof.
  intros E.
  destruct (exec_job_rule o s s' out E) as [Hl|(Hl & (? & ? & ?) & ? & ?)].
  - split; [lia|done].
  - split; [lia|done].
Qed.

Lemma job_started_only_under_guard_witness :
  worker (file (fst (File_update (xs "b.jpg" JUndefined) hashless_sys)))
  = Some 1%nat
  ∧ jobs (fst (File_update (xs "b.jpg" JUndefined) hashless_sys)) !! 1%nat
    = Some (mkJob "/d/b.jpg" "u-1" Running).
Proof.
  destruct (job_started_only_under_guard (Update (xs "b.jpg" JUndefined))
              hashless_sys _ _ eq_refl) as [_ H].
  destruct H as (_ & _ & _ & Hw & Hj); [simpl; discriminate|].
  exact (conj Hw Hj).
Defined.

(** X12. Only [pause()] and [resume()] write the paused flag; and while a
    File is paused, nothing but [resume()] starts a job for it: not an
    attach, not a rename, not the failure of a job. *)
Theorem paused_persists_and_starts_nothing
    (o : op) (s s' : Sys) (out : outcome) :
  exec o s = Some (s', out) ->
  o ≠ Resume ->
  (o ≠ Pause -> paused (file s') = paused (file s))
  ∧ (paused (file s) = true ->
     paused (file s') = true ∧ length (jobs s') = length (jobs s)).
Proof.
  intros E Hr. split.
  - intros Hp. destruct (exec_frame o s s' out E) as (_ & _ & _ & H).
    by destruct o.
  - intros Hpa. split.
    + destruct o; try (destruct (exec_frame _ s s' out E) as (_ & _ & _ & ->); done).
      * simpl in E. unfold File_pause in E. rewrite Hpa in E. by injection E as <- _.
      * done.
    + destruct (exec_job_rule o s s' out E) as [Hl|(_ & (_ & _ & [?|?]) & _)];
        [done|congruence|done].
Qed.

Lemma paused_persists_and_starts_nothing_witness :
  paused (file (fst (File_update (xs "b.jpg" JUndefined)
                       (fst (File_pause hashless_sys))))) = true
  ∧ length (jobs (fst (File_update (xs "b.jpg" JUndefined)
                         (fst (File_pause hashless_sys))))) = 1%nat.
Proof.
  refine (proj2 (paused_persists_and_starts_nothing
                   (Update (xs "b.jpg" JUndefined))
                   (fst (File_pause hashless_sys)) _ _ eq_refl _) eq_refl).
  discriminate.
Defined.

(** X13. A job that fails because the path is missing (ENOENT, ENOTDIR) or
    because it was asked to abort (EABORT) is not retried: the handle is
    cleared, no job is started, and nothing else of the File changes. The
    missing path, and only that, is reported to the directory, once, with
    the code. *)
Theorem failure_without_retry
    (j : nat) (code : string) (s s' : Sys) (out : outcome) :
  is_transient code = false ->
  exec (WorkerError j code) s = Some (s', out) ->
  file s' = set_worker None (file s)
  ∧ length (jobs s') = length (jobs s)
  ∧ job_has_status s' j Finished = true
  ∧ idx s' = idx s
  ∧ missing s' = missing s ++ (if is_path_missing code then [code] else []).
Proof.
  intros Ht. simpl. destruct (_ || _) eqn:En; [|done]. intros [= <- _].
  destruct (end_job_fields j s) as (Hf & Hi & _ & Hm & Hlen).
  assert (Hfin : job_has_status (end_job j s) j Finished = true).
  { apply orb_true_iff in En as [En|En]; apply andb_true_iff in En as [En _];
      by eapply end_job_finished. }
  unfold on_worker_error, is_path_missing. cbv zeta.
  unfold is_transient in Ht.
  destruct (String.eqb code "ENOTDIR" || String.eqb code "ENOENT"); simpl.
  - by rewrite Hf, Hlen, Hi, Hm.
  - simpl in Ht. apply negb_false_iff in Ht. rewrite Ht. simpl.
    by rewrite Hf, Hlen, Hi, Hm, app_nil_r.
Qed.

Lemma failure_without_retry_witness :
  file (fst (default (hashless_sys, Returned)
               (exec (WorkerError 0 "ENOENT") hashless_sys)))
  = set_worker None (file hashless_sys)
  ∧ length (jobs (fst (default (hashless_sys, Returned)
                         (exec (WorkerError 0 "ENOENT") hashless_sys)))) = 1%nat
  ∧ job_has_status (fst (default (hashless_sys, Returned)
                           (exec (WorkerError 0 "ENOENT") hashless_sys)))
                   0 Finished = true
  ∧ idx (fst (default (hashless_sys, Returned)
                (exec (WorkerError 0 "ENOENT") hashless_sys))) = idx hashless_sys
  ∧ missing (fst (default (hashless_sys, Returned)
                    (exec (WorkerError 0 "ENOENT") hashless_sys))) = ["ENOENT"].
Proof.
  exact (failure_without_retry 0 "ENOENT" hashless_sys _ Returned eq_refl eq_refl).
Defined.

(** X14. When the job of a File without digest finishes with an xstat that
    [update] accepts, of the File's name and with a digest, the File has
    that digest and is in the index under it, holds no handle, has started
    no job, and keeps its counter. *)
Theorem finish_records_digest
    (j : nat) (x : xstat) (s s' : Sys) (out : outcome) :
  exec (WorkerFinish j x) s = Some (s', out) ->
  typeof (x_magic x) = "string" ->
  x_uuid x = uuid (file s) ->
  x_name x = name (file s) ->
  truthy (hash (file s)) = false ->
  truthy (x_hash x) = true ->
  out = Returned
  ∧ hash (file s') = x_hash x
  ∧ indexed (idx s') (x_hash x) (self s)
  ∧ worker (file s') = None
  ∧ length (jobs s') = length (jobs s)
  ∧ job_has_status s' j Finished = true
  ∧ hashFail (file s') = hashFail (file s).
Proof.
  simpl. destruct (job_has_status s j Running) eqn:En; [|done].
  intros E Hm Hu Hn Hh Hx. unfold on_worker_finish in E.
  set (s0 := upd_file (set_worker None) (end_job j s)) in *.
  destruct (end_job_fields j s) as (Hf & Hi & Hs & _ & Hlen).
  assert (Hne : hash (file s0) ≠ x_hash x).
  { unfold s0. simpl. rewrite Hf. intros Heq. congruence. }
  assert (Hacc : typeof (x_magic x) = "string" ∧ x_uuid x = uuid (file s0)).
  { split; [done|]. unfold s0. simpl. by rewrite Hf. }
  rewrite (update_accepted x s0 Hacc) in E.
  unfold strict_eq in E. rewrite (bool_decide_eq_false_2 _ Hne), andb_false_r in E.
  injection E as <- <-.
  destruct (update_body_same_name x s0) as [Hj Hw].
  { unfold s0. simpl. by rewrite Hf. }
  destruct (update_body_fields x s0) as (_ & _ & _ & _ & _ & Hhash & _).
  pose proof (update_body_indexes x s0 Hx Hne) as Hidx.
  rewrite (update_body_hashFail x s0).
  split; [done|]. split; [done|]. split; [by rewrite <- Hs|].
  split; [by rewrite Hw|]. split; [by rewrite Hj|]. split.
  - unfold job_has_status. rewrite Hj.
    exact (end_job_finished s j Running En).
  - unfold strict_eq. rewrite bool_decide_eq_false_2; [by rewrite <- Hf|].
    intros Heq. rewrite Heq in Hx. done.
Qed.

Lemma finish_records_digest_witness :
  hash (file (fst (on_worker_finish (xs "a.jpg" (JString "abc"))
                     (end_job 0 hashless_sys)))) = JString "abc"
  ∧ indexed (idx (fst (on_worker_finish (xs "a.jpg" (JString "abc"))
                         (end_job 0 hashless_sys)))) (JString "abc") 1%positive
  ∧ worker (file (fst (on_worker_finish (xs "a.jpg" (JString "abc"))
                         (end_job 0 hashless_sys)))) = None.
Proof.
  destruct (finish_records_digest 0 (xs "a.jpg" (JString "abc")) hashless_sys
              _ _ eq_refl eq_refl eq_refl eq_refl eq_refl eq_refl)
    as (_ & Hh & Hi & Hw & _).
  exact (conj Hh (conj Hi Hw)).
Defined.

(** X15. When a job finishes with an xstat that [update] rejects (magic not
    a string, or another uuid), the finish handler throws, but only after
    it has cleared the handle: the File is left as it was except that it
    holds no job. *)
Theorem finish_with_rejected_xstat
    (j : nat) (x : xstat) (s s' : Sys) (out : outcome) :
  exec (WorkerFinish j x) s = Some (s', out) ->
  ¬ (typeof (x_magic x) = "string" ∧ x_uuid x = uuid (file s)) ->
  (∃ msg, out = Threw msg)
  ∧ file s' = set_worker None (file s)
  ∧ idx s' = idx s
  ∧ length (jobs s') = length (jobs s)
  ∧ job_has_status s' j Finished = true.
Proof.
  simpl. destruct (job_has_status s j Running) eqn:En; [|done].
  intros E Hrej. unfold on_worker_finish in E.
  set (s0 := upd_file (set_worker None) (end_job j s)) in *.
  destruct (end_job_fields j s) as (Hf & Hi & _ & _ & Hlen).
  destruct (update_rejects x s0) as [msg Hmsg].
  { unfold s0. simpl. by rewrite Hf. }
  rewrite Hmsg in E. injection E as <- <-.
  split; [by exists msg|]. unfold s0. simpl. rewrite Hf, Hi, Hlen.
  repeat split. exact (end_job_finished s j Running En).
Qed.

Lemma finish_with_rejected_xstat_witness :
  (∃ msg, snd (on_worker_finish (mkXstat "u-2" "a.jpg" (JString "JPEG") JUndefined)
                 (end_job 0 hashless_sys)) = Threw msg)
  ∧ file (fst (on_worker_finish (mkXstat "u-2" "a.jpg" (JString "JPEG") JUndefined)
                 (end_job 0 hashless_sys)))
    = set_worker None (file hashless_sys).
Proof.
  destruct (finish_with_rejected_xstat 0
              (mkXstat "u-2" "a.jpg" (JString "JPEG") JUndefined)
              hashless_sys _ _ eq_refl) as (Hm & Hf & _).
  - intros [_ Hu]. discriminate Hu.
  - exact (conj Hm Hf).
Defined.

(** X16. [update] is idempotent: an accepted xstat applied a second time is
    a no-op, whatever the first application did. *)
Theorem update_twice_is_update_once (x : xstat) (s : Sys) :
  typeof (x_magic x) = "string" ->
  x_uuid x = uuid (file s) ->
  File_update x (fst (File_update x s)) = (fst (File_update x s), Returned).
Proof.
  intros Hm Hu.
  assert (H1 : uuid (file (fst (File_update x s))) = uuid (file s)
               ∧ name (file (fst (File_update x s))) = x_name x
               ∧ hash (file (fst (File_update x s))) = x_hash x).
  { rewrite update_accepted by done.
    destruct (String.eqb_spec (name (file s)) (x_name x)) as [Hn|Hn]; simpl.
    - unfold strict_eq.
      destruct (bool_decide_reflect (hash (file s) = x_hash x)) as [Hh|Hh]; simpl.
      + done.
      + by destruct (update_body_fields x s) as (_ & ? & _ & _ & ? & ? & _).
    - by destruct (update_body_fields x s) as (_ & ? & _ & _ & ? & ? & _). }
  destruct H1 as (Hu1 & Hn1 & Hh1).
  set (s1 := fst (File_update x s)) in *.
  unfold File_update. rewrite Hm, Hu, <- Hu1, Hn1, Hh1, !String.eqb_refl.
  unfold strict_eq. by rewrite bool_decide_eq_true_2.
Qed.

Lemma update_twice_is_update_once_witness :
  File_update (xs "b.jpg" (JString "abc"))
    (fst (File_update (xs "b.jpg" (JString "abc")) hashless_sys))
  = (fst (File_update (xs "b.jpg" (JString "abc")) hashless_sys), Returned).
Proof.
  exact (update_twice_is_update_once (xs "b.jpg" (JString "abc")) hashless_sys
           eq_refl eq_refl).
Defined.

(** X17. An update that does not rename leaves the jobs alone: a digest
    that arrives through [update] while a job is running neither aborts
    the job nor clears the handle. *)
Theorem update_without_rename_keeps_jobs (x : xstat) (s : Sys) :
  name (file s) = x_name x ->
  jobs (fst (File_update x s)) = jobs s
  ∧ worker (file (fst (File_update x s))) = worker (file s).
Proof.
  intros Hn. destruct (update_cases x s) as [->|(_ & _ & ->)]; [done|].
  by apply update_body_same_name.
Qed.

Lemma update_without_rename_keeps_jobs_witness :
  jobs (fst (File_update (xs "a.jpg" (JString "abc")) hashless_sys))
  = [mkJob "/d/a.jpg" "u-1" Running]
  ∧ worker (file (fst (File_update (xs "a.jpg" (JString "abc")) hashless_sys)))
    = Some 0%nat.
Proof.
  exact (update_without_rename_keeps_jobs (xs "a.jpg" (JString "abc"))
           hashless_sys eq_refl).
Defined.

(** X18. The methods and job events of a File touch the index for that File
    only: every other File is in the same index sets after the step as
    before it. *)
Theorem other_files_stay_indexed
    (o : op) (s s' : Sys) (out : outcome) (d : jsval) (o' : positive) :
  exec o s = Some (s', out) ->
  is_other_op o = false ->
  o' ≠ self s ->
  indexed (idx s') d o' ↔ indexed (idx s) d o'.
Proof.
  intros E Hop Hne.
  destruct o as [p| | | |x|j code|j x|o'' d'|o'' d']; simpl in *; try done.
  - injection E as <- _. unfold File_attach, Node_attach.
    destruct (startWorker_fields (File_index (upd_file (set_parent (Some p)) s)))
      as (_ & _ & _ & _ & _ & _ & _ & -> & _).
    by rewrite index_other.
  - injection E as <- _. unfold File_detach, Node_detach. simpl.
    destruct (stopWorker_fields s) as (_ & Hi & Hs & _).
    rewrite unindex_other by (by rewrite Hs). by rewrite Hi.
  - unfold File_pause in E. destruct (paused (file s)); injection E as <- _; [done|].
    simpl. by destruct (stopWorker_fields s) as (_ & -> & _).
  - injection E as <- _. unfold File_resume.
    by destruct (startWorker_fields (upd_file (set_paused false) s))
      as (_ & _ & _ & _ & _ & _ & _ & -> & _).
  - assert (s' = fst (File_update x s)) as ->.
    { by destruct (File_update x s); injection E as <- _. }
    destruct (update_cases x s) as [->|(_ & _ & ->)]; [done|].
    by apply update_body_idx_other.
  - destruct (_ || _); [|done]. injection E as <- _.
    destruct (on_worker_error_frame code (end_job j s)) as (-> & _).
    by destruct (end_job_fields j s) as (_ & -> & _).
  - destruct (job_has_status s j Running); [|done].
    unfold on_worker_finish in E.
    set (s0 := upd_file (set_worker None) (end_job j s)) in *.
    assert (s' = fst (File_update x s0)) as ->.
    { by destruct (File_update x s0); injection E as <- _. }
    destruct (end_job_fields j s) as (_ & Hi & Hs & _).
    assert (H0 : idx s0 = idx s ∧ self s0 = self s) by done.
    destruct H0 as [Hi0 Hs0].
    destruct (update_cases x s0) as [->|(_ & _ & ->)]; [by rewrite Hi0|].
    rewrite update_body_idx_other by (by rewrite Hs0). by rewrite Hi0.
Qed.

Lemma other_files_stay_indexed_witness :
  indexed (idx (fst (File_update (xs "a.jpg" (JString "def"))
                       (set_idx (index_add 2 (JString "abc") (idx hashed_sys))
                                hashed_sys))))
          (JString "abc") 2%positive
  ↔ indexed (idx (set_idx (index_add 2 (JString "abc") (idx hashed_sys)) hashed_sys))
            (JString "abc") 2%positive.
Proof.
  refine (other_files_stay_indexed (Update (xs "a.jpg" (JString "def")))
            (set_idx (index_add 2 (JString "abc") (idx hashed_sys)) hashed_sys)
            _ _ (JString "abc") 2%positive eq_refl eq_refl _).
  simpl. discriminate.
Defined.

(** X19. [detach()] takes the File out of every index set and keeps its
    digest; attaching it again, anywhere, puts it back under that digest. *)
Theorem detach_then_attach_reindexes (p : string) (s : Sys) :
  index_inv s ->
  (unindexed (File_detach s)
   ∧ parent (file (File_detach s)) = None
   ∧ hash (file (File_detach s)) = hash (file s))
  ∧ (parent (file (File_attach p (File_detach s))) = Some p
     ∧ hash (file (File_attach p (File_detach s))) = hash (file s)
     ∧ ∀ d, indexed (idx (File_attach p (File_detach s))) d (self s)
            ↔ (hash (file s) = d ∧ truthy d = true)).
Proof.
  intros Hinv.
  assert (Hh : hash (file (File_detach s)) = hash (file s)
               ∧ self (File_detach s) = self s).
  { unfold File_detach, Node_detach. simpl.
    destruct (unindex_fields (File_stopWorker s)) as (-> & _ & -> & _).
    by destruct (stopWorker_fields s) as (-> & _ & -> & _). }
  destruct Hh as [Hh Hs].
  split; [split; [by apply detach_unindexed|done]|].
  destruct (exec_index_inv Detach s (File_detach s) Returned Hinv eq_refl)
    as [Hinv1 _].
  destruct (exec_index_inv (Attach p) (File_detach s)
              (File_attach p (File_detach s)) Returned Hinv1 eq_refl)
    as [[H1 H2] Hs2].
  assert (Hf : parent (file (File_attach p (File_detach s))) = Some p
               ∧ hash (file (File_attach p (File_detach s))) = hash (file s)).
  { unfold File_attach, Node_attach.
    destruct (startWorker_fields
                (File_index (upd_file (set_parent (Some p)) (File_detach s))))
      as (-> & _ & _ & _ & -> & _).
    destruct (index_fields (upd_file (set_parent (Some p)) (File_detach s)))
      as (-> & _). simpl. done. }
  destruct Hf as [Hp Hh2]. split; [done|]. split; [done|].
  intros d. rewrite Hs2, Hs in H1, H2. rewrite Hh2 in H1, H2. split.
  - apply H1.
  - intros [<- Ht]. apply H2; [by rewrite Hp|done].
Qed.

Lemma detach_then_attach_reindexes_witness :
  (unindexed (File_detach hashed_sys)
   ∧ parent (file (File_detach hashed_sys)) = None
   ∧ hash (file (File_detach hashed_sys)) = JString "abc")
  ∧ (parent (file (File_attach "/e" (File_detach hashed_sys))) = Some "/e"
     ∧ hash (file (File_attach "/e" (File_detach hashed_sys))) = JString "abc"
     ∧ ∀ d, indexed (idx (File_attach "/e" (File_detach hashed_sys))) d 1%positive
            ↔ (JString "abc" = d ∧ truthy d = true)).
Proof.
  refine (detach_then_attach_reindexes "/e" hashed_sys _).
  refine (proj1 (exec_index_inv (Attach "/d") (init_sys hashed_file 1%positive ∅)
                   hashed_sys Returned _ eq_refl)).
  split; simpl; [|done].
  intros d Hd. unfold indexed in Hd. rewrite lookup_total_empty in Hd.
  destruct (not_elem_of_empty (C := gset positive) _ Hd).
Defined.

(** X20. The discipline that keeps one job per File. Say a File is settled
    when every job of it that has not ended is the one whose handle it
    holds. A settled File stays settled through every job event and every
    method call, provided [attach], [resume] and a renaming [update] are
    called only while it holds no handle; and a settled File has at most
    one job that has not ended. *)
Theorem one_job_while_calls_are_well_timed
    (o : op) (s s' : Sys) (out : outcome) :
  settled s ->
  well_timed o s ->
  exec o s = Some (s', out) ->
  settled s' ∧ ∀ i k, unfinished s' i -> unfinished s' k -> i = k.
Proof.
  intros Hs Hwt E.
  pose proof (exec_settled o s s' out Hs Hwt E) as Hs'.
  split; [done|]. intros i k. by apply settled_unique.
Qed.

Lemma one_job_while_calls_are_well_timed_witness :
  settled (fst (File_pause hashless_sys))
  ∧ ∀ i k, unfinished (fst (File_pause hashless_sys)) i
           -> unfinished (fst (File_pause hashless_sys)) k -> i = k.
Proof.
  refine (one_job_while_calls_are_well_timed Pause hashless_sys _ Returned
            _ I eq_refl).
  intros i (job & Hl & _). destruct i as [|i]; [reflexivity|discriminate Hl].
Defined.

End FileMore.

(** * The error response (response.js) *)

Module ResponseSpec.
Import JS Response.

Lemma js_or_truthy (a b : jsval) : truthy b = true -> truthy (js_or a b) = true.
Proof. intros Hb. unfold js_or. by destruct (truthy a) eqn:E. Qed.

(** X21. Whatever [res.error] is given, it answers with a status that is
    not zero (the status passed, or 500 when none or 0 is passed) and a
    body whose code and message
    are never empty: 'no httpCode' and 'system error' stand in for what is
    missing. For an error given as a non-empty string the message is that
    string, there is no stack, and the code is EINVAL for status 400,
    ENOENT for 404 and 'no httpCode' for every other status. *)
Theorem res_error_is_always_informative (err : err_arg) (status : option Z) :
  fst (res_error err status) ≠ 0
  ∧ fst (res_error err status)
    = match status with
      | None | Some 0 => 500
      | Some n => n
      end
  ∧ truthy (body_code (snd (res_error err status))) = true
  ∧ truthy (body_message (snd (res_error err status))) = true
  ∧ match err with
    | AValue (JString m) =>
        m ≠ "" ->
        body_message (snd (res_error err status)) = JString m
        ∧ body_stack (snd (res_error err status)) = JUndefined
        ∧ body_code (snd (res_error err status))
          = (if fst (res_error err status) =? 400 then JString "EINVAL"
             else if fst (res_error err status) =? 404 then JString "ENOENT"
             else JString "no httpCode")
    | _ => True
    end.
Proof.
  assert (Hst : fst (res_error err status) = status_or status DEFALUT_ERROR_STATUS).
  { unfold res_error. cbv zeta. by destruct err as [c m st| |v];
      [| |destruct (truthy v); [destruct (String.eqb _ _)|]]. }
  assert (Hnz : status_or status DEFALUT_ERROR_STATUS ≠ 0).
  { unfold status_or, DEFALUT_ERROR_STATUS. destruct status as [n|]; [|done].
    destruct (Z.eqb_spec n 0); done. }
  rewrite Hst. split; [done|]. split.
  { unfold status_or, DEFALUT_ERROR_STATUS. by destruct status as [[| |]|]. }
  assert (Hbody : truthy (body_code (snd (res_error err status))) = true
                  ∧ truthy (body_message (snd (res_error err status))) = true).
  { unfold res_error. cbv zeta. destruct err as [c m st| |v]; simpl.
    - split; by apply js_or_truthy.
    - done.
    - destruct (truthy v) eqn:Etv; [destruct (String.eqb _ _)|]; simpl;
        split; first [done | by apply js_or_truthy]. }
  destruct Hbody as [Hc Hm]. split; [done|]. split; [done|].
  destruct err as [c m st| |[| |b|n|m]]; try done.
  intros Hne. unfold res_error. cbv zeta. simpl.
  destruct (String.eqb_spec m "") as [|_]; [done|]. simpl.
  unfold js_or. simpl. destruct (String.eqb_spec m "") as [|_]; [done|].
  split; [done|]. split; [done|].
  unfold httpCode.
  destruct (status_or status DEFALUT_ERROR_STATUS =? 400); [done|].
  by destruct (status_or status DEFALUT_ERROR_STATUS =? 404).
Qed.

End ResponseSpec.
